(** * mongovcore-aisearch: the synthetic-data seeder and the export pipeline

    The development embeds [myapp.js] (the seeder that fills the source
    collection with synthetic time-series documents) and the three pipeline
    operations the README documents ([transform_document], the batch loader
    and the index (re)creation), and states the properties of the
    specification over them, followed by further properties read off the
    code: the range of [randomIntFromInterval] for all integer bounds, the
    closed form of a generated day, and what a run of [seedDB] does when the
    store fails.

    JavaScript numbers are IEEE 754 binary64 values; they are modelled with
    the Standard Library's executable specification of binary floating point
    ([spec_float] at precision 53, maximal exponent 1024), so that
    [Math.random() * (max - min + 1) + min] rounds exactly as it does in the
    program. *)

From Stdlib Require Import ZArith Lia List Bool Strings.String.
From Stdlib Require Import Floats.SpecFloat.
From stdpp Require Import base option list strings gmap.

(** ** JavaScript numbers *)

Module Js.

Definition prec : Z := 53.
Definition emax : Z := 1024.

(** A JavaScript Number. *)
Definition number : Type := spec_float.

(** The Number an integer literal denotes (exact below 2^53). *)
Definition lit (n : Z) : number := binary_normalize prec emax n 0 false.

Definition add : number -> number -> number := SFadd prec emax.
Definition sub : number -> number -> number := SFsub prec emax.
Definition mul : number -> number -> number := SFmul prec emax.
(** [a < b]; false as soon as one side is NaN. *)
Definition lt : number -> number -> bool := SFltb.
Definition le : number -> number -> bool := SFleb.

(** [Math.floor]: the greatest integer below the argument; zeros, infinities
    and NaN are returned unchanged. *)
Definition Math_floor (x : number) : number :=
  match x with
  | S754_finite s m e =>
      binary_normalize prec emax (Z.shiftl (cond_Zopp s (Zpos m)) e) 0 s
  | _ => x
  end.

(** What [Math.random()] may return: a Number [r] with [0 <= r < 1]. *)
Definition unit_interval (r : number) : bool :=
  valid_binary prec emax r && le (S754_zero false) r && lt r (lit 1).

(** [x] is the integer [k], and [lo <= k <= hi]. *)
Definition int_between (lo hi : Z) (x : number) : Prop :=
  exists k : Z, (lo <= k <= hi)%Z /\ x = lit k.

(** Values that flow through the program: the documents handed to the
    driver are trees of objects, arrays, strings, dates and numbers.  An
    object keeps its own properties in insertion order. *)
#[warnings="-register-all"]
Inductive value : Type :=
| VNum (n : number)
| VStr (s : string)
| VDate (ms : Z)
| VObj (props : list (string * value))
| VArr (items : list value).

(** [o.k] *)
Fixpoint get_prop (k : string) (props : list (string * value)) : option value :=
  match props with
  | [] => None
  | (k', v) :: rest => if String.eqb k k' then Some v else get_prop k rest
  end.

Definition get (k : string) (o : value) : option value :=
  match o with
  | VObj props => get_prop k props
  | _ => None
  end.

(** [Object.keys(o)] *)
Definition keys (o : value) : list string :=
  match o with
  | VObj props => map fst props
  | _ => []
  end.

(** [a.push(x)] on the array stored under property [k] of [o] *)
Fixpoint push_prop (k : string) (x : value) (props : list (string * value))
  : list (string * value) :=
  match props with
  | [] => []
  | (k', v) :: rest =>
      if String.eqb k k' then
        (k', match v with VArr items => VArr (items ++ [x]) | _ => v end) :: rest
      else (k', v) :: push_prop k x rest
  end.

Definition push_at (k : string) (x : value) (o : value) : value :=
  match o with
  | VObj props => VObj (push_prop k x props)
  | _ => o
  end.

End Js.

Import Js.

(** ** The sources of randomness of [myapp.js]

    [Math.random] and the faker library are the program's only inputs
    besides the store.  An [Entropy] fixes what the n-th call of each
    returns; a [Cursor] counts the calls made so far. *)

Record Entropy : Type := {
  math_random : nat -> number;              (* Math.random() *)
  faker_string : nat -> string;             (* person.firstName/lastName, lorem.word *)
  faker_email : nat -> string -> string -> string;  (* internet.email({firstName, lastName}) *)
  faker_date : nat -> Z                     (* date.past() *)
}.

Record Cursor : Type := { random_calls : nat; faker_calls : nat }.

Definition start : Cursor := {| random_calls := 0; faker_calls := 0 |}.

(** Every [Math.random()] result lies in [0, 1). *)
Definition entropy_ok (E : Entropy) : Prop :=
  forall n, unit_interval (math_random E n) = true.

(** Computations that draw from the entropy; [None] when the fuel given to a
    loop without a syntactic bound ran out. *)
Definition Gen (A : Type) : Type := Entropy -> Cursor -> option (A * Cursor).

Definition gret {A} (a : A) : Gen A := fun _ c => Some (a, c).

Definition gbind {A B} (m : Gen A) (f : A -> Gen B) : Gen B :=
  fun E c => match m E c with
             | Some (a, c') => f a E c'
             | None => None
             end.

Definition out_of_fuel {A} : Gen A := fun _ _ => None.

Declare Scope gen_scope.
Delimit Scope gen_scope with gen.
Notation "'let*' x ':=' m 'in' k" := (gbind m (fun x => k))
  (at level 10, x name, m at level 100, k at level 200) : gen_scope.

Definition Math_random : Gen number :=
  fun E c => Some (math_random E (random_calls c),
                   {| random_calls := S (random_calls c); faker_calls := faker_calls c |}).

Definition faker_call {A} (f : Entropy -> nat -> A) : Gen A :=
  fun E c => Some (f E (faker_calls c),
                   {| random_calls := random_calls c; faker_calls := S (faker_calls c) |}).

Definition faker_person_firstName : Gen string := faker_call faker_string.
Definition faker_person_lastName : Gen string := faker_call faker_string.
Definition faker_lorem_word : Gen string := faker_call faker_string.
Definition faker_date_past : Gen Z := faker_call faker_date.
Definition faker_internet_email (firstName lastName : string) : Gen string :=
  faker_call (fun E n => faker_email E n firstName lastName).

(** ** [myapp.js] *)

(** [Math.floor(r * (max - min + 1) + min)] for a draw [r]. *)
Definition randomInt_of (min max r : number) : number :=
  Math_floor (add (mul r (add (sub max min) (lit 1))) min).

(** [function randomIntFromInterval(min, max)] *)
Definition randomIntFromInterval (min max : number) : Gen number :=
  (let* r := Math_random in gret (randomInt_of min max r))%gen.

(** [for (let j = 0; j < randomIntFromInterval(1, 6); j++) { ... }]: the
    condition is evaluated, with a fresh draw, before every iteration. *)
Fixpoint events_loop (fuel j : nat) (newDay : value) : Gen value :=
  match fuel with
  | O => out_of_fuel
  | S fuel' =>
      (let* bound := randomIntFromInterval (lit 1) (lit 6) in
       if lt (lit (Z.of_nat j)) bound then
         let* ts := faker_date_past in
         let* w := randomIntFromInterval (lit 14) (lit 16) in
         let newEvent := VObj [("timestamp_event", VDate ts); ("weight", VNum w)] in
         events_loop fuel' (S j) (push_at "events" newEvent newDay)
       else gret newDay)%gen
  end.

(** The body of the outer loop: one day. *)
Definition make_day (fuel : nat) : Gen value :=
  (let* firstName := faker_person_firstName in
   let* lastName := faker_person_lastName in
   let* ts := faker_date_past in
   let* word := faker_lorem_word in
   let* email := faker_internet_email firstName lastName in
   let newDay :=
     VObj [("timestamp_day", VDate ts);
           ("cat", VStr word);
           ("owner", VObj [("email", VStr email);
                           ("firstName", VStr firstName);
                           ("lastName", VStr lastName)]);
           ("events", VArr [])] in
   events_loop fuel 0 newDay)%gen.

(** [for (let i = 0; i < 5000; i++) { ...; timeSeriesData.push(newDay); }],
    by recursion on the iterations that remain. *)
Fixpoint days_loop (fuel remaining : nat) (timeSeriesData : list value)
  : Gen (list value) :=
  match remaining with
  | O => gret timeSeriesData
  | S remaining' =>
      (let* newDay := make_day fuel in
       days_loop fuel remaining' (timeSeriesData ++ [newDay]))%gen
  end.

Definition day_count : nat := Z.to_nat 5000.

(** [let timeSeriesData = []; for (...) {...}]: the documents the program
    builds.  The source has no [count] parameter. *)
Definition timeSeriesData (fuel : nat) : Gen (list value) :=
  days_loop fuel day_count [].

(** The spec's [generate(count)] as the program offers it: [seedDB] takes no
    argument and JavaScript ignores surplus arguments, so a requested
    [count] has no influence on what is built. *)
Definition generate (count : Z) (fuel : nat) : Gen (list value) :=
  timeSeriesData fuel.

(** ** The store and [seedDB]

    The MongoDB driver is an external collaborator: each of its calls either
    completes or throws.  [Store] fixes how the calls of one run behave. *)

Inductive error : Type := Error (stack : string).

Definition stack (err : error) : string := let 'Error s := err in s.

Record Store : Type := {
  new_MongoClient : option error;                      (* new MongoClient(uri, options) *)
  client_connect : option error;                       (* await client.connect() *)
  collection_insertMany : list value -> option error;  (* await collection.insertMany(docs) *)
  client_close : option error                          (* await client.close() *)
}.

(** What a run does to the outside world, in order. *)
Inductive io : Type :=
| Connect
| InsertMany (db coll : string) (docs : list value)
| Close
| ConsoleLog (msg : string).

(** How a block of statements completes. *)
Inductive completion (A : Type) : Type :=
| Normal (a : A)
| Throw (e : error).
Arguments Normal {A} a.
Arguments Throw {A} e.

(** Statements of [seedDB]: they draw from the entropy, act on the outside
    world and complete normally or throw; [None] when a loop ran out of
    fuel. *)
Definition Run (A : Type) : Type :=
  Entropy -> Cursor -> option (list io * completion A * Cursor).

Definition rret {A} (a : A) : Run A := fun _ c => Some ([], Normal a, c).

Definition rbind {A B} (m : Run A) (f : A -> Run B) : Run B :=
  fun E c =>
    match m E c with
    | None => None
    | Some (t, Throw e, c') => Some (t, Throw e, c')
    | Some (t, Normal a, c') =>
        match f a E c' with
        | None => None
        | Some (t', r, c'') => Some (t ++ t', r, c'')
        end
    end.

Declare Scope run_scope.
Delimit Scope run_scope with run.
Notation "'let*' x ':=' m 'in' k" := (rbind m (fun x => k))
  (at level 10, x name, m at level 100, k at level 200) : run_scope.
Notation "m ';;' k" := (rbind m (fun _ => k))
  (at level 100, k at level 200, right associativity) : run_scope.

(** Pure construction inside a run: it touches the entropy and nothing
    else. *)
Definition construct {A} (g : Gen A) : Run A :=
  fun E c => match g E c with
             | None => None
             | Some (a, c') => Some ([], Normal a, c')
             end.

(** Build the client object: no call goes out, but the constructor throws
    on a connection string it cannot parse. *)
Definition construct_client (outcome : option error) : Run unit :=
  fun _ c => Some ([], match outcome with None => Normal tt | Some e => Throw e end, c).

(** Call a collaborator: the call is recorded, then it completes or throws. *)
Definition call (ev : io) (outcome : option error) : Run unit :=
  fun _ c => Some ([ev], match outcome with None => Normal tt | Some e => Throw e end, c).

Definition console_log (msg : string) : Run unit :=
  fun _ c => Some ([ConsoleLog msg], Normal tt, c).

(** [try { body } catch (err) { handler } finally { finalizer }]: the
    handler runs when the body throws, the finalizer runs in every case, and
    when the finalizer throws its error replaces the completion of the
    rest. *)
Definition try_catch_finally (body : Run unit) (handler : error -> Run unit)
    (finalizer : Run unit) : Run unit :=
  fun E c =>
    match body E c with
    | None => None
    | Some (t1, r1, c1) =>
        match (match r1 with
               | Normal _ => Some ([], Normal tt, c1)
               | Throw err => handler err E c1
               end) with
        | None => None
        | Some (t2, r2, c2) =>
            match finalizer E c2 with
            | None => None
            | Some (t3, Normal _, c3) => Some (t1 ++ t2 ++ t3, r2, c3)
            | Some (t3, Throw e, c3) => Some (t1 ++ t2 ++ t3, Throw e, c3)
            end
        end
    end.

(** [async function seedDB()].  [client] is built before the [try]; once
    built it is an object, hence truthy in the [finally] block. *)
Definition seedDB (S : Store) (fuel : nat) : Run unit :=
  let client_truthy := true in
  (construct_client (new_MongoClient S) ;;
   try_catch_finally
     (call Connect (client_connect S) ;;
      console_log "Connected correctly to server" ;;
      let* docs := construct (timeSeriesData fuel) in
      call (InsertMany "Synthetic_Data_DB" "Synthetic_Data_COL" docs)
           (collection_insertMany S docs) ;;
      console_log "Database seeded with synthetic data! :)")
     (fun err => console_log (stack err))
     (if client_truthy then
        call Close (client_close S) ;;
        console_log "MongoDB connection closed"
      else rret tt))%run.

(** The observable part of a run. *)
Definition trace_of {A} (r : option (list io * completion A * Cursor)) : list io :=
  match r with Some (t, _, _) => t | None => [] end.

Definition is_store_call (ev : io) : bool :=
  match ev with ConsoleLog _ => false | _ => true end.

Definition is_insert (ev : io) : bool :=
  match ev with InsertMany _ _ _ => true | _ => false end.

Definition is_close (ev : io) : bool :=
  match ev with Close => true | _ => false end.

(** ** The export pipeline

    [main.py] and [search_index.py] are not among the sources; the README
    lists [transform_document] and [get_search_index_schema] and describes
    the run.  The three operations below follow that listing and the
    specification. *)

Module Pipeline.

(** A field value of a stored document. *)
Inductive field : Type :=
| FStr (s : string)
| FInt (n : Z)
| FBool (b : bool).

#[global] Instance field_eq_dec : EqDecision field.
Proof. solve_decision. Defined.

(** Documents are mappings from field names to values. *)
Abbreviation SourceDocument := (gmap string field).
Abbreviation IndexDocument := (gmap string field).

Inductive pipeline_error : Type :=
| MissingKeyError
| SchemaValidationError.

(** Modelled from the spec: [transform_document] of [main.py], which is not
    among the sources; the README lists it as
    [search_doc = {"id": doc["_id"]}; return search_doc], and the
    specification names the failure on a document without identifier. *)
Definition transform (doc : SourceDocument) : pipeline_error + IndexDocument :=
  match doc !! "_id" with
  | Some v => inr {[ "id" := v ]}
  | None => inl MissingKeyError
  end.

(** *** What a function of the pipeline can see and do

    Besides its arguments, Python code of the pipeline can read the settings
    of the process (the [.env] file of the README) and the clock, and it can
    act on the outside: write a log line, query the store, call the search
    service.  [Py A] is a computation that may do all that: it runs in a
    [World], returns a value or raises, records the calls it made to the
    outside, in order, and leaves a world. *)
Record World : Type := { environ : gmap string string; clock : Z }.

Inductive effect : Type :=
| LogLine (msg : string)
| StoreQuery (collection : string)
| ServiceCall (operation : string).

Definition Py (A : Type) : Type :=
  World -> (pipeline_error + A) * list effect * World.

Definition py_ret {A} (a : A) : Py A := fun w => (inr a, [], w).

Definition py_raise {A} (e : pipeline_error) : Py A := fun w => (inl e, [], w).

Definition py_bind {A B} (m : Py A) (f : A -> Py B) : Py B :=
  fun w =>
    match m w with
    | (inl e, t, w') => (inl e, t, w')
    | (inr a, t, w') => let '(r, t', w'') := f a w' in (r, t ++ t', w'')
    end.

Declare Scope py_scope.
Delimit Scope py_scope with py.
Notation "'let*' x ':=' m 'in' k" := (py_bind m (fun x => k))
  (at level 10, x name, m at level 100, k at level 200) : py_scope.

(** [os.getenv(name)] *)
Definition os_getenv (n : string) : Py (option string) :=
  fun w => (inr (environ w !! n), [], w).

(** [time.time()]: the clock moves on. *)
Definition time_time : Py Z :=
  fun w => (inr (clock w), [], {| environ := environ w; clock := clock w + 1 |}).

(** [logging.info(msg)] *)
Definition logging_info (msg : string) : Py unit :=
  fun w => (inr tt, [LogLine msg], w).

(** [doc[k]] on a dictionary: the value, or an error when the key is
    absent. *)
Definition getitem (doc : SourceDocument) (k : string) : Py field :=
  match doc !! k with
  | Some v => py_ret v
  | None => py_raise MissingKeyError
  end.

(** Modelled from the spec: [transform_document] of [main.py], statement by
    statement as the README lists it,
    [search_doc = {"id": doc["_id"]}; return search_doc], as a computation
    that could read the world and act on it. *)
Definition transform_document (doc : SourceDocument) : Py IndexDocument :=
  (let* v := getitem doc "_id" in
   let search_doc : IndexDocument := {[ "id" := v ]} in
   py_ret search_doc)%py.

(** *** The search service *)

Record FieldDef : Type := {
  fname : string;
  ftype : string;
  key : bool;
  searchable : bool
}.

#[global] Instance FieldDef_eq_dec : EqDecision FieldDef.
Proof. solve_decision. Defined.

Record IndexSchema : Type := { name : string; fields : list FieldDef }.

(** [get_search_index_schema] of [search_index.py], as the README lists it:
    the index is named by the environment and declares one field, the key
    [id]. *)
Definition get_search_index_schema (SEARCH_INDEX_NAME : string) : IndexSchema :=
  {| name := SEARCH_INDEX_NAME;
     fields := [ {| fname := "id"; ftype := "Edm.String";
                    key := true; searchable := false |} ] |}.

(** A remote index: its field definitions and its documents by key. *)
Record Index : Type := {
  index_fields : list FieldDef;
  index_docs : gmap string IndexDocument
}.

(** The remote service: its indexes by name. *)
Abbreviation Service := (gmap string Index).

(** Modelled from the spec: the operations of the search service, an
    external collaborator (delete an index by name, create an index from a
    schema, bulk upsert). *)
Definition delete_index (n : string) (svc : Service) : Service := delete n svc.

Definition create_index (schema : IndexSchema) (svc : Service) : Service :=
  <[ name schema := {| index_fields := fields schema; index_docs := ∅ |} ]> svc.

(** Bulk upsert of one batch: a document replaces the one with its key. *)
Definition upsert (n : string) (docs : list (string * IndexDocument)) (svc : Service)
  : Service :=
  match svc !! n with
  | Some idx =>
      <[ n := {| index_fields := index_fields idx;
                 index_docs := foldl (fun m kd => <[ kd.1 := kd.2 ]> m)
                                     (index_docs idx) docs |} ]> svc
  | None => svc
  end.

(** Modelled from the spec: [ensureIndex] of [search_index.py], which is not
    among the sources: when an index of that name exists it is deleted,
    the index is created from the schema, and the remote field set is then
    checked against the schema. *)
Definition ensureIndex (schema : IndexSchema) (svc : Service)
  : pipeline_error + Service :=
  let svc1 := match svc !! name schema with
              | Some _ => delete_index (name schema) svc
              | None => svc
              end in
  let svc2 := create_index schema svc1 in
  match svc2 !! name schema with
  | Some idx =>
      if decide (index_fields idx = fields schema) then inr svc2
      else inl SchemaValidationError
  | None => inl SchemaValidationError
  end.

(** *** The batch loader *)

(** Modelled from the spec: the loop of the batch loader, which is not
    among the sources.  Documents are appended to the buffer; when the
    buffer reaches [batchSize] it is pushed as one unit and cleared; when
    the input is exhausted a non-empty buffer is pushed.  The result lists
    the push calls in the order they are issued. *)
Fixpoint load_loop {A} (batchSize : nat) (documents buffer : list A) : list (list A) :=
  match documents with
  | [] => match buffer with
          | [] => []
          | _ :: _ => [buffer]
          end
  | d :: rest =>
      let buffer' := buffer ++ [d] in
      if batchSize <=? length buffer' then buffer' :: load_loop batchSize rest []
      else load_loop batchSize rest buffer'
  end.

(** Modelled from the spec: [load(documents, batchSize)] of the batch
    loader, which is not among the sources, observed through its push
    calls. *)
Definition load {A} (documents : list A) (batchSize : nat) : list (list A) :=
  load_loop batchSize documents [].

(** The number of batches [N] documents need at [B] per batch. *)
Definition ceil_div (N B : nat) : nat := (N + B - 1) `div` B.

End Pipeline.

(** ** Binary64 rounding, for the proofs

    Values are compared as integers, scaled by [2 ^ bias]: every exponent the
    program meets is above [- bias]. *)

Section Rounding.
Local Open Scope Z_scope.

(** The record [n] one-bit shifts leave of an exact [P]. *)
Definition shifted (P n : Z) : shr_record :=
  {| shr_m := P / 2 ^ n;
     shr_r := (0 <? n) && Z.odd (P / 2 ^ (n - 1));
     shr_s := (0 <? n) && negb (P mod 2 ^ (n - 1) =? 0) |}.

Definition bias : Z := 1200.

Definition scaled (x : number) : Z :=
  match x with
  | S754_finite s m e => cond_Zopp s (Zpos m) * 2 ^ (e + bias)
  | _ => 0
  end.

Definition finite_from (lo : Z) (x : number) : Prop :=
  match x with
  | S754_zero _ => True
  | S754_finite false _ e => lo <= e
  | _ => False
  end.

(** [R] is the binary64 rounding of the value [X] (scaled by [2^bias]) whose
    magnitude is [mag]: it stays on the right side of every number of the
    grid, and goes down to a grid point it is less than half a step above. *)
Definition rounds (X mag : Z) (R : number) : Prop :=
  finite_from (- bias) R
  /\ (forall mu eu, fexp prec emax mag <= eu ->
        2 * X < 2 * (mu * 2 ^ (eu + bias)) + 2 ^ (fexp prec emax mag + bias) ->
        scaled R <= mu * 2 ^ (eu + bias))
  /\ (forall ml el, fexp prec emax mag <= el ->
        ml * 2 ^ (el + bias) <= X -> ml * 2 ^ (el + bias) <= scaled R).

(** [x] is the nonnegative integer [k], held exactly. *)
Definition holds_int (k : Z) (x : number) : Prop :=
  match x with
  | S754_zero s => k = 0 /\ s = false
  | S754_finite false m e => -52 <= e /\ Zpos m * 2 ^ (e + bias) = k * 2 ^ bias
  | _ => False
  end.

End Rounding.

(** ** What the specification says of a generated day *)

Definition events_of (day : value) : list value :=
  match get "events" day with
  | Some (VArr evs) => evs
  | _ => []
  end.

Definition weight_of (newEvent : value) : option number :=
  match get "weight" newEvent with
  | Some (VNum w) => Some w
  | _ => None
  end.

(** The events list has between 1 and 6 entries. *)
Definition events_count_ok (day : value) : Prop :=
  1 <= length (events_of day) <= 6.

(** Every event carries an integer weight between [lo] and [hi]. *)
Definition weights_within (lo hi : Z) (day : value) : Prop :=
  Forall (fun ev => exists w, weight_of ev = Some w /\ int_between lo hi w)
         (events_of day).

(** A day has exactly the fields [ks], its owner exactly the fields
    [email], [firstName], [lastName]. *)
Definition has_fields (ks : list string) (day : value) : Prop :=
  keys day = ks
  /\ exists owner, get "owner" day = Some owner
                 /\ keys owner = ["email"; "firstName"; "lastName"].

(** A day object with the events [evs]. *)
Definition day_with (evs : list value) (day : value) : Prop :=
  exists ts word email firstName lastName,
    day = VObj [("timestamp_day", VDate ts);
                ("cat", VStr word);
                ("owner", VObj [("email", VStr email);
                                ("firstName", VStr firstName);
                                ("lastName", VStr lastName)]);
                ("events", VArr evs)].

(** An event object whose weight is an integer between [lo] and [hi]. *)
Definition event_with (lo hi : Z) (ev : value) : Prop :=
  exists ts w, ev = VObj [("timestamp_event", VDate ts); ("weight", VNum w)]
               /\ int_between lo hi w.

(** A generated day: between 1 and 6 events, each with an integer weight
    between [lo] and [hi]. *)
Definition day_ok (lo hi : Z) (day : value) : Prop :=
  exists evs, day_with evs day /\ 1 <= length evs <= 6 /\ Forall (event_with lo hi) evs.

(** The bound the loop condition draws before iteration [j] of a day whose
    first draw is the [n0]-th: every earlier iteration drew twice, for its
    condition and for its weight. *)
Definition bound_at (E : Entropy) (n0 j : nat) : number :=
  randomInt_of (lit 1) (lit 6) (math_random E (n0 + 2 * j)).

(** [n] is the first [j] whose bound is not above [j]. *)
Definition first_stop (E : Entropy) (n0 n : nat) : Prop :=
  lt (lit (Z.of_nat n)) (bound_at E n0 n) = false
  /\ forall i, i < n -> lt (lit (Z.of_nat i)) (bound_at E n0 i) = true.

(** The cursor after one call of [Math.random]. *)
Definition after_draw (c : Cursor) : Cursor :=
  {| random_calls := S (random_calls c); faker_calls := faker_calls c |}.

(** The object literal of [newDay], with the events pushed so far. *)
Definition newDay_of (ts : Z) (word email firstName lastName : string)
    (evs : list value) : value :=
  VObj [("timestamp_day", VDate ts);
        ("cat", VStr word);
        ("owner", VObj [("email", VStr email);
                        ("firstName", VStr firstName);
                        ("lastName", VStr lastName)]);
        ("events", VArr evs)].

(** The event that iteration [i] of the inner loop builds, in a day whose
    first draw is the [n0]-th and whose first event timestamp is the [f0]-th
    faker call. *)
Definition event_at (E : Entropy) (n0 f0 i : nat) : value :=
  VObj [("timestamp_event", VDate (faker_date E (f0 + i)));
        ("weight", VNum (randomInt_of (lit 14) (lit 16) (math_random E (n0 + 2 * i + 1))))].

(** The day with [n] events built from the calls that follow [c]: the two
    names, the day's timestamp, the word and the address are the next five
    faker results, in the order the source evaluates them. *)
Definition day_at (E : Entropy) (c : Cursor) (n : nat) : value :=
  let f := faker_calls c in
  let firstName := faker_string E f in
  let lastName := faker_string E (f + 1) in
  newDay_of (faker_date E (f + 2)) (faker_string E (f + 3))
            (faker_email E (f + 4) firstName lastName) firstName lastName
            (map (event_at E (random_calls c) (f + 5)) (seq 0 n)).

(** The cursor after a day with [n] events. *)
Definition after_day (c : Cursor) (n : nat) : Cursor :=
  {| random_calls := random_calls c + 2 * n + 1; faker_calls := faker_calls c + 5 + n |}.

(** The number of events of all the days. *)
Fixpoint total_events (days : list value) : nat :=
  match days with
  | [] => 0
  | day :: rest => length (events_of day) + total_events rest
  end.

(** The owner of [day] carries the address faker made from the two names
    stored beside it. *)
Definition owner_consistent (E : Entropy) (day : value) : Prop :=
  exists k firstName lastName,
    get "owner" day
    = Some (VObj [("email", VStr (faker_email E k firstName lastName));
                  ("firstName", VStr firstName);
                  ("lastName", VStr lastName)]).

(** Every weight draw of [E] gives an integer between 14 and [hi]. *)
Definition weights_ok (hi : Z) (E : Entropy) : Prop :=
  forall n, int_between 14 hi (randomInt_of (lit 14) (lit 16) (math_random E n)).

(** No draw of [E] exceeds [1 - 2^-50]. *)
Definition draws_below (E : Entropy) : Prop :=
  forall n, (scaled (math_random E n) <= (2 ^ 50 - 1) * 2 ^ (-50 + bias))%Z.

(** The field names the specification declares for a SyntheticDay. *)
Definition declared_fields : list string :=
  ["timestamp_day"; "category"; "owner"; "events"].

(** The field names [myapp.js] writes. *)
Definition written_fields : list string :=
  ["timestamp_day"; "cat"; "owner"; "events"].

(** ** What a run of [seedDB] does

    [seed_trace S days] is what the outside world sees of a run that builds
    [days], [seed_completion S] how the run completes. *)

(** The trace of a run of [seedDB] that builds [days]. *)
Definition closing (S : Store) : list io :=
  Close :: match client_close S with
           | None => [ConsoleLog "MongoDB connection closed"]
           | Some _ => []
           end.

Definition seed_trace (S : Store) (days : list value) : list io :=
  match new_MongoClient S, client_connect S with
  | Some _, _ => []
  | None, Some e => [Connect; ConsoleLog (stack e)] ++ closing S
  | None, None =>
      [Connect; ConsoleLog "Connected correctly to server";
       InsertMany "Synthetic_Data_DB" "Synthetic_Data_COL" days]
      ++ match collection_insertMany S days with
         | None => [ConsoleLog "Database seeded with synthetic data! :)"]
         | Some e => [ConsoleLog (stack e)]
         end
      ++ closing S
  end.

Definition seed_completion (S : Store) : completion unit :=
  match new_MongoClient S, client_close S with
  | Some e, _ => Throw e
  | None, Some e => Throw e
  | None, None => Normal tt
  end.

(** What a run writes to the console, in order. *)
Definition messages (t : list io) : list string :=
  flat_map (fun ev => match ev with ConsoleLog msg => [msg] | _ => [] end) t.

(** ** Inputs for the examples *)

(** Entropies for the examples: every [Math.random()] returns [r n]. *)
Definition entropy_of (r : nat -> number) : Entropy :=
  {| math_random := r;
     faker_string := fun _ => "x";
     faker_email := fun _ firstName lastName => firstName +:+ "." +:+ lastName;
     faker_date := fun n => Z.of_nat n |}.

(** [1 - 2^-52], the largest value V8's [Math.random] produces from 52 random
    bits (0.9999999999999998). *)
Definition almost_one : number := S754_finite false (2 ^ 53 - 2) (-53).
Definition plus_zero : number := S754_zero false.

(** [1 - 6 * 2^-53] (0.9999999999999993): the least draw whose weight is 17. *)
Definition first_17 : number := S754_finite false (2 ^ 53 - 6) (-53).

(** [1 - 2^-53] (0.9999999999999999), the greatest number below 1. *)
Definition last_draw : number := S754_finite false (2 ^ 53 - 1) (-53).

(** A dyadic draw [m * 2^e], in canonical form. *)
Definition dyadic (m e : Z) : number := binary_normalize prec emax m e false.

(** The draws of the day that shows the weight 17: the loop condition draws
    0, the weight draws [1 - 2^-52], the next loop condition draws 0. *)
Definition draws_17 (n : nat) : number :=
  match n with
  | 1 => almost_one
  | _ => plus_zero
  end.

(** The draws of two days that start alike: the first loop condition draws
    7/8 (which asks for 6 events) and the weight draws 1/2; then the loop
    conditions draw 1/8 in the first day and 7/8 in the second. *)
Definition draws_short (n : nat) : number :=
  match n with
  | 0 => dyadic 7 (-3)
  | 1 => dyadic 1 (-1)
  | _ => dyadic 1 (-3)
  end.

Definition draws_long (n : nat) : number :=
  if Nat.even n then dyadic 7 (-3) else dyadic 1 (-1).

(** A store whose every call fails. *)
Definition store_down : Store :=
  {| new_MongoClient := None;
     client_connect := Some (Error "connect ECONNREFUSED");
     collection_insertMany := fun _ => Some (Error "insertMany failed");
     client_close := Some (Error "close failed") |}.

(** A store whose every call completes. *)
Definition store_up : Store :=
  {| new_MongoClient := None;
     client_connect := None;
     collection_insertMany := fun _ => None;
     client_close := None |}.

(** A store whose client cannot be built. *)
Definition store_unbuilt : Store :=
  {| new_MongoClient := Some (Error "Invalid scheme");
     client_connect := None;
     collection_insertMany := fun _ => None;
     client_close := None |}.

(** ** What the specification says of the pipeline *)

Section PipelineSpec.
Import Pipeline.

(** What the specification says of the push calls of a load of [N]
    documents at [B] per batch. *)
Definition batched {A} (B N : nat) (calls : list (list A)) : Prop :=
  length calls = ceil_div N B
  /\ (forall i b, calls !! i = Some b -> S i < length calls -> length b = B)
  /\ (0 < N -> exists b, last calls = Some b
                         /\ length b = if N mod B =? 0 then B else N mod B).

(** The index [ensureIndex] leaves under the name of the schema. *)
Definition fresh_index (schema : IndexSchema) : Index :=
  {| index_fields := fields schema; index_docs := ∅ |}.

End PipelineSpec.

(** * Proofs *)

(** ** Binary64 rounding *)

Section RoundingFacts.
Local Open Scope Z_scope.

(** [digits2_pos p] is the number of binary digits of [p]. *)
Lemma digits2_pos_bounds (p : positive) :
  2 ^ (Zpos (digits2_pos p) - 1) <= Zpos p < 2 ^ Zpos (digits2_pos p).
Proof.
  induction p as [p IH | p IH |]; cbn [digits2_pos].
  - rewrite Pos2Z.inj_succ, (Pos2Z.inj_xI p).
    replace (Z.succ (Zpos (digits2_pos p)) - 1) with (Z.succ (Zpos (digits2_pos p) - 1)) by lia.
    rewrite !Z.pow_succ_r by lia. lia.
  - rewrite Pos2Z.inj_succ, (Pos2Z.inj_xO p).
    replace (Z.succ (Zpos (digits2_pos p)) - 1) with (Z.succ (Zpos (digits2_pos p) - 1)) by lia.
    rewrite !Z.pow_succ_r by lia. lia.
  - cbn. lia.
Qed.

(** One shift halves the mantissa, keeps the bit shifted out as round bit and
    accumulates the former round bit into the sticky bit. *)
Lemma shr_1_nonneg m r s :
  0 <= m -> shr_1 {| shr_m := m; shr_r := r; shr_s := s |}
            = {| shr_m := Z.div2 m; shr_r := Z.odd m; shr_s := r || s |}.
Proof.
  intros Hm. destruct m as [| p | p]; [reflexivity | | lia].
  destruct p; reflexivity.
Qed.

Lemma iter_pos_nat {A} (f : A -> A) (p : positive) (x : A) :
  SpecFloat.iter_pos f p x = Nat.iter (Pos.to_nat p) f x.
Proof.
  revert x. induction p as [p IH | p IH |]; intros x; cbn [SpecFloat.iter_pos].
  - rewrite !IH, Pos2Nat.inj_xI.
    replace (S (2 * Pos.to_nat p))%nat with (Pos.to_nat p + S (Pos.to_nat p))%nat by lia.
    rewrite Nat.iter_add, Nat.iter_succ_r. reflexivity.
  - rewrite !IH, Pos2Nat.inj_xO.
    replace (2 * Pos.to_nat p)%nat with (Pos.to_nat p + Pos.to_nat p)%nat by lia.
    rewrite Nat.iter_add. reflexivity.
  - reflexivity.
Qed.

Lemma mod_pow2_step (P k : Z) :
  0 <= k -> P mod 2 ^ (k + 1) = P mod 2 ^ k + 2 ^ k * ((P / 2 ^ k) mod 2).
Proof.
  intros Hk. rewrite Z.pow_add_r, Z.pow_1_r by lia.
  apply Z.rem_mul_r; [ | lia]. apply Z.pow_nonzero; lia.
Qed.

Lemma shr_1_shifted (P : Z) (k : nat) :
  0 <= P -> shr_1 (shifted P (Z.of_nat k)) = shifted P (Z.of_nat (S k)).
Proof.
  intros HP. unfold shifted.
  assert (Hpow : 0 < 2 ^ Z.of_nat k) by (apply Z.pow_pos_nonneg; lia).
  rewrite shr_1_nonneg by (apply Z.div_pos; lia).
  rewrite Nat2Z.inj_succ.
  replace (Z.succ (Z.of_nat k) - 1) with (Z.of_nat k) by lia.
  f_equal.
  - rewrite Z.div2_div, Z.pow_succ_r, (Z.mul_comm 2), Z.div_div by lia. reflexivity.
  - replace (0 <? Z.succ (Z.of_nat k)) with true by (symmetry; apply Z.ltb_lt; lia).
    reflexivity.
  - replace (0 <? Z.succ (Z.of_nat k)) with true by (symmetry; apply Z.ltb_lt; lia).
    cbn [andb].
    destruct k as [| k'].
    + cbn. rewrite Z.mod_1_r. reflexivity.
    + replace (0 <? Z.of_nat (S k')) with true by (symmetry; apply Z.ltb_lt; lia).
      cbn [andb].
      replace (Z.of_nat (S k')) with ((Z.of_nat (S k') - 1) + 1) at 3 by lia.
      rewrite mod_pow2_step by lia.
      set (j := Z.of_nat (S k') - 1).
      assert (Hj : 0 < 2 ^ j) by (apply Z.pow_pos_nonneg; lia).
      pose proof (Z.mod_pos_bound P (2 ^ j) Hj) as Hlo.
      rewrite Zmod_odd.
      destruct (Z.odd (P / 2 ^ j)); cbn [orb].
      * symmetry. apply negb_true_iff, Z.eqb_neq. lia.
      * f_equal. rewrite Z.mul_0_r, Z.add_0_r. reflexivity.
Qed.

Lemma iter_shr_1 (P : Z) (k : nat) :
  0 <= P ->
  Nat.iter k shr_1 {| shr_m := P; shr_r := false; shr_s := false |}
  = shifted P (Z.of_nat k).
Proof.
  intros HP. induction k as [| k IH].
  - cbn. unfold shifted. cbn. rewrite Z.div_1_r. reflexivity.
  - rewrite Nat.iter_succ, IH. apply shr_1_shifted, HP.
Qed.

(** Shifting an exact mantissa right by [n] bits. *)
Lemma shr_exact (P e n : Z) :
  0 <= P ->
  shr {| shr_m := P; shr_r := false; shr_s := false |} e n
  = if 0 <? n then (shifted P n, e + n)
    else ({| shr_m := P; shr_r := false; shr_s := false |}, e).
Proof.
  intros HP. destruct n as [| p | p]; cbn [shr Z.ltb Z.compare]; try reflexivity.
  rewrite iter_pos_nat, iter_shr_1, positive_nat_Z by assumption. reflexivity.
Qed.

Lemma pow2_pos (k : Z) : 0 <= k -> 0 < 2 ^ k.
Proof. intros. apply Z.pow_pos_nonneg; lia. Qed.

Lemma pow2_split (a b : Z) : 0 <= a -> 0 <= b -> 2 ^ (a + b) = 2 ^ a * 2 ^ b.
Proof. intros. apply Z.pow_add_r; assumption. Qed.

(** Rounding to nearest even after a shift by [n]: the quotient or its
    successor, and the quotient when less than half was shifted out. *)
Lemma round_shifted (P n : Z) :
  0 <= P -> 0 < n ->
  let m2 := round_nearest_even (shr_m (shifted P n)) (loc_of_shr_record (shifted P n)) in
  P / 2 ^ n <= m2 <= P / 2 ^ n + 1
  /\ (2 * (P mod 2 ^ n) < 2 ^ n -> m2 = P / 2 ^ n).
Proof.
  intros HP Hn. unfold shifted. cbn [shr_m].
  replace (0 <? n) with true by (symmetry; apply Z.ltb_lt; lia). cbn [andb].
  pose proof (mod_pow2_step P (n - 1) ltac:(lia)) as Hstep.
  replace (n - 1 + 1) with n in Hstep by lia.
  assert (Hpow : 2 ^ n = 2 * 2 ^ (n - 1)).
  { replace n with (Z.succ (n - 1)) at 1 by lia. apply Z.pow_succ_r. lia. }
  pose proof (pow2_pos (n - 1) ltac:(lia)) as Hh.
  pose proof (Z.mod_pos_bound P (2 ^ (n - 1)) Hh) as Hlo.
  rewrite Zmod_odd in Hstep.
  destruct (Z.odd (P / 2 ^ (n - 1))); destruct (Z.eqb_spec (P mod 2 ^ (n - 1)) 0) as [E | E];
    cbn [negb loc_of_shr_record round_nearest_even].
  - destruct (Z.even (P / 2 ^ n)); split; lia.
  - split; lia.
  - split; lia.
  - split; lia.
Qed.

Lemma Zdigits2_le (m k : Z) : 0 <= m < 2 ^ k -> 0 <= k -> Zdigits2 m <= k.
Proof.
  intros [Hm Hlt] Hk. destruct m as [| p | p]; cbn [Zdigits2]; [lia | | lia].
  pose proof (digits2_pos_bounds p) as [Hlo _].
  assert (2 ^ (Zpos (digits2_pos p) - 1) < 2 ^ k) as Hpk by lia.
  apply Z.pow_lt_mono_r_iff in Hpk; lia.
Qed.

Lemma fexp_eq (e : Z) : fexp prec emax e = Z.max (e - 53) (-1074).
Proof. reflexivity. Qed.

(** The second alignment of [binary_round_aux]: it only shifts when the
    rounding carried into a 54th digit, and keeps the value. *)
Lemma shr_fexp_carry (m2 fe : Z) :
  0 <= m2 <= 2 ^ 53 -> -1074 <= fe ->
  exists m3 e3,
    shr_fexp prec emax m2 fe loc_Exact
      = ({| shr_m := m3; shr_r := false; shr_s := false |}, e3)
    /\ m3 * 2 ^ (e3 + bias) = m2 * 2 ^ (fe + bias)
    /\ fe <= e3 <= fe + 1 /\ 0 <= m3.
Proof.
  intros Hm Hfe. unfold shr_fexp. cbn [shr_record_of_loc].
  rewrite shr_exact by lia.
  destruct (Z.eq_dec m2 (2 ^ 53)) as [-> | Hne].
  - change (Zdigits2 (2 ^ 53)) with 54. rewrite fexp_eq.
    replace (Z.max (54 + fe - 53) (-1074) - fe) with 1 by lia.
    cbn [Z.ltb Z.compare].
    exists (2 ^ 52), (fe + 1). unfold shifted.
    change (2 ^ 53 / 2 ^ 1) with (2 ^ 52).
    change (Z.odd (2 ^ 53 / 2 ^ (1 - 1))) with false.
    change (2 ^ 53 mod 2 ^ (1 - 1) =? 0) with true. cbn [andb negb].
    repeat split; try lia.
    replace (fe + 1 + bias) with (1 + (fe + bias)) by lia.
    unfold bias in *. rewrite pow2_split by lia.
    change (2 ^ 1) with 2. change (2 ^ 53) with (2 * 2 ^ 52). lia.
  - assert (Zdigits2 m2 <= 53) as Hd by (apply Zdigits2_le; lia).
    rewrite fexp_eq.
    replace (0 <? Z.max (Zdigits2 m2 + fe - 53) (-1074) - fe) with false
      by (symmetry; apply Z.ltb_ge; lia).
    exists m2, fe. repeat split; lia.
Qed.

(** The value [binary_round_aux] returns for an exact positive input: the
    input itself when its mantissa fits, and otherwise the quotient by the
    [2 ^ (fe - ex)] shifted out, or its successor, on the grid [2 ^ fe]. *)
Lemma round_aux_value (P : positive) (ex : Z) :
  - bias <= ex <= 100 -> Zpos (digits2_pos P) + ex <= 1000 ->
  let fe := fexp prec emax (Zpos (digits2_pos P) + ex) in
  let R := binary_round_aux prec emax false (Zpos P) ex loc_Exact in
  finite_from ex R /\
  (fe <= ex -> scaled R = Zpos P * 2 ^ (ex + bias)) /\
  (ex < fe ->
     Zpos P / 2 ^ (fe - ex) * 2 ^ (fe + bias) <= scaled R
       <= (Zpos P / 2 ^ (fe - ex) + 1) * 2 ^ (fe + bias)
     /\ (2 * (Zpos P mod 2 ^ (fe - ex)) < 2 ^ (fe - ex) ->
         scaled R = Zpos P / 2 ^ (fe - ex) * 2 ^ (fe + bias))).
Proof.
  intros Hex Hmag fe R.
  assert (HR : R = binary_round_aux prec emax false (Zpos P) ex loc_Exact) by reflexivity.
  clearbody R. unfold binary_round_aux in HR.
  unfold shr_fexp at 1 in HR. cbn [shr_record_of_loc Zdigits2] in HR. fold fe in HR.
  rewrite shr_exact in HR by lia.
  assert (Hfe : fe = Z.max (Zpos (digits2_pos P) + ex - 53) (-1074)) by reflexivity.
  destruct (Z.ltb_spec 0 (fe - ex)) as [Hn | Hn].
  - (* some bits are shifted out *)
    pose proof (round_shifted (Zpos P) (fe - ex) ltac:(lia) Hn) as [Hm2 Hdown].
    set (m2 := round_nearest_even (shr_m (shifted (Zpos P) (fe - ex)))
                 (loc_of_shr_record (shifted (Zpos P) (fe - ex)))) in *.
    cbv zeta in Hm2, Hdown.
    assert (Hq : 0 <= Zpos P / 2 ^ (fe - ex) < 2 ^ 53).
    { pose proof (pow2_pos (fe - ex) ltac:(lia)) as Hp.
      split; [apply Z.div_pos; lia |].
      apply Z.div_lt_upper_bound; [lia |].
      pose proof (digits2_pos_bounds P) as [_ Hhi].
      assert (2 ^ Zpos (digits2_pos P) <= 2 ^ (fe - ex + 53)) as Hle
        by (apply Z.pow_le_mono_r; lia).
      rewrite pow2_split in Hle by lia. lia. }
    destruct (shr_fexp_carry m2 (ex + (fe - ex)) ltac:(lia) ltac:(lia))
      as (m3 & e3 & Hshr & Hval & He3 & Hm3).
    rewrite Hshr in HR. clear Hshr.
    replace (ex + (fe - ex)) with fe in * by lia.
    cbn [shr_m] in HR.
    pose proof (pow2_pos (fe + bias) ltac:(unfold bias; lia)) as Hg.
    assert (Hrange : m2 * 2 ^ (fe + bias) = m2 * 2 ^ (fe + bias) ->
                     Zpos P / 2 ^ (fe - ex) * 2 ^ (fe + bias) <= m2 * 2 ^ (fe + bias)
                       <= (Zpos P / 2 ^ (fe - ex) + 1) * 2 ^ (fe + bias)).
    { intros _. split; apply Z.mul_le_mono_nonneg_r; lia. }
    destruct m3 as [| m | m]; [ | | lia].
    + subst R. cbn [scaled finite_from]. rewrite Z.mul_0_l in Hval.
      split; [exact I |]. split; [lia |]. intros _. split.
      * rewrite Hval. apply Hrange. reflexivity.
      * intros Hlt. rewrite <- (Hdown Hlt). exact Hval.
    + replace (e3 <=? emax - prec) with true in HR
        by (symmetry; apply Z.leb_le; unfold emax, prec; lia).
      subst R. cbn [scaled finite_from cond_Zopp].
      split; [lia |]. split; [lia |]. intros _. split.
      * rewrite Hval. apply Hrange. reflexivity.
      * intros Hlt. rewrite <- (Hdown Hlt). exact Hval.
  - (* the mantissa fits: nothing is shifted out *)
    cbn [shr_m loc_of_shr_record round_nearest_even] in HR.
    unfold shr_fexp in HR. cbn [shr_record_of_loc Zdigits2] in HR. fold fe in HR.
    rewrite shr_exact in HR by lia.
    replace (0 <? fe - ex) with false in HR by (symmetry; apply Z.ltb_ge; lia).
    cbn [shr_m] in HR.
    replace (ex <=? emax - prec) with true in HR
      by (symmetry; apply Z.leb_le; unfold emax, prec; lia).
    subst R. cbn [scaled finite_from cond_Zopp]. repeat split; lia.
Qed.

Lemma near_arith (P N w u R : Z) :
  0 < N -> 0 < w -> 0 <= P ->
  P / N * (N * w) <= R <= (P / N + 1) * (N * w) ->
  (2 * (P mod N) < N -> R = P / N * (N * w)) ->
  2 * (P * w) < 2 * (u * (N * w)) + N * w ->
  R <= u * (N * w).
Proof.
  intros HN Hw HP HR Hdown Hnear.
  pose proof (Z.div_mod P N ltac:(lia)) as Hdm.
  pose proof (Z.mod_pos_bound P N HN) as Hrem.
  assert (H2 : 2 * P < 2 * u * N + N) by nia.
  assert (Hq : P / N <= u) by nia.
  destruct (Z.eq_dec (P / N) u) as [E | E].
  - rewrite Hdown by nia. rewrite E. lia.
  - assert (P / N + 1 <= u) by lia.
    assert (0 < N * w) by nia. nia.
Qed.

Lemma ge_arith (P N w l R : Z) :
  0 < N -> 0 < w ->
  P / N * (N * w) <= R ->
  l * (N * w) <= P * w ->
  l * (N * w) <= R.
Proof.
  intros HN Hw HR Hl.
  assert (l * N <= P) by nia.
  assert (l <= P / N) by (apply Z.div_le_lower_bound; lia).
  assert (0 < N * w) by nia. nia.
Qed.

Lemma finite_from_weaken (a b : Z) (x : number) :
  a <= b -> finite_from b x -> finite_from a x.
Proof. destruct x as [s | | | [|] m e]; cbn; intros; try tauto; lia. Qed.

(** [binary_round_aux] rounds, in the sense of [rounds]. *)
Lemma round_aux_rounds (P : positive) (ex : Z) :
  - bias <= ex <= 100 -> Zpos (digits2_pos P) + ex <= 1000 ->
  rounds (Zpos P * 2 ^ (ex + bias)) (Zpos (digits2_pos P) + ex)
         (binary_round_aux prec emax false (Zpos P) ex loc_Exact).
Proof.
  intros Hex Hmag.
  destruct (round_aux_value P ex Hex Hmag) as (Hfin & Hexact & Hround).
  set (fe := fexp prec emax (Zpos (digits2_pos P) + ex)) in *.
  set (R := binary_round_aux prec emax false (Zpos P) ex loc_Exact) in *.
  assert (Hfe : -1074 <= fe) by (unfold fe; rewrite fexp_eq; lia).
  pose proof (pow2_pos (ex + bias) ltac:(unfold bias in *; lia)) as Hw.
  split; [apply (finite_from_weaken _ ex); [lia | exact Hfin] |].
  destruct (Z.le_gt_cases fe ex) as [Hle | Hgt].
  - (* exact *)
    rewrite (Hexact Hle).
    assert (Hsplit : 2 ^ (ex + bias) = 2 ^ (ex - fe) * 2 ^ (fe + bias)).
    { rewrite <- pow2_split by (unfold bias; lia). f_equal. lia. }
    pose proof (pow2_pos (fe + bias) ltac:(unfold bias; lia)) as Hg.
    pose proof (pow2_pos (ex - fe) ltac:(lia)) as Hd.
    split.
    + intros mu eu Heu Hnear. fold fe in Heu, Hnear.
      assert (Hu : 2 ^ (eu + bias) = 2 ^ (eu - fe) * 2 ^ (fe + bias)).
      { rewrite <- pow2_split by (unfold bias; lia). f_equal. lia. }
      rewrite Hu, Hsplit in *.
      set (g := 2 ^ (fe + bias)) in *. set (a := 2 ^ (ex - fe)) in *.
      set (b := 2 ^ (eu - fe)) in *.
      destruct (Z.le_gt_cases (Zpos P * a) (mu * b)) as [Hab | Hab].
      * apply (Z.mul_le_mono_nonneg_r _ _ g) in Hab; lia.
      * assert ((mu * b + 1) * g <= Zpos P * a * g)
          by (apply Z.mul_le_mono_nonneg_r; lia).
        lia.
    + intros ml el Hel Hge. exact Hge.
  - (* rounded *)
    destruct (Hround Hgt) as [Hbounds Hdown].
    assert (Hsplit : 2 ^ (fe + bias) = 2 ^ (fe - ex) * 2 ^ (ex + bias)).
    { rewrite <- pow2_split by (unfold bias in *; lia). f_equal. lia. }
    pose proof (pow2_pos (fe - ex) ltac:(lia)) as HN.
    split.
    + intros mu eu Heu Hnear. fold fe in Heu, Hnear.
      assert (Hu : mu * 2 ^ (eu + bias) = mu * 2 ^ (eu - fe) * (2 ^ (fe - ex) * 2 ^ (ex + bias))).
      { rewrite <- Hsplit, <- Z.mul_assoc, <- pow2_split by (unfold bias; lia).
        do 2 f_equal. lia. }
      rewrite Hu in *. rewrite Hsplit in *.
      apply (near_arith (Zpos P)); try assumption; lia.
    + intros ml el Hel Hge. fold fe in Hel.
      assert (Hl : ml * 2 ^ (el + bias) = ml * 2 ^ (el - fe) * (2 ^ (fe - ex) * 2 ^ (ex + bias))).
      { rewrite <- Hsplit, <- Z.mul_assoc, <- pow2_split by (unfold bias; lia).
        do 2 f_equal. lia. }
      rewrite Hl in *. rewrite Hsplit in *.
      apply (ge_arith (Zpos P)); try assumption; lia.
Qed.

Lemma iter_xO_value (m d : positive) :
  Zpos (Pos.iter xO m d) = Zpos m * 2 ^ Zpos d.
Proof.
  induction d as [| d IH] using Pos.peano_ind.
  - cbn [Pos.iter]. rewrite (Pos2Z.inj_xO m). change (2 ^ 1) with 2. lia.
  - rewrite Pos.iter_succ, (Pos2Z.inj_xO (Pos.iter xO m d)), IH, Pos2Z.inj_succ.
    rewrite Z.pow_succ_r by lia. lia.
Qed.

Lemma iter_xO_digits (m d : positive) :
  Zpos (digits2_pos (Pos.iter xO m d)) = Zpos (digits2_pos m) + Zpos d.
Proof.
  induction d as [| d IH] using Pos.peano_ind.
  - cbn [Pos.iter digits2_pos]. lia.
  - rewrite Pos.iter_succ. cbn [digits2_pos]. rewrite Pos2Z.inj_succ, IH. lia.
Qed.

Lemma shl_align_fst (m : positive) (e e' : Z) :
  e' <= e -> Zpos (fst (shl_align m e e')) = Zpos m * 2 ^ (e - e').
Proof.
  intros Hle. unfold shl_align.
  destruct (e' - e) as [| d | d] eqn:E; cbn [fst]; try lia.
  - replace (e - e') with 0 by lia. lia.
  - rewrite iter_xO_value. do 2 f_equal. lia.
Qed.

(** A positive mantissa and its exponent, as a scaled value, and the
    magnitude of that value. *)
Lemma magnitude_bounds (P : positive) (e : Z) :
  - bias <= e ->
  2 ^ (Zpos (digits2_pos P) + e - 1 + bias) <= Zpos P * 2 ^ (e + bias)
    < 2 ^ (Zpos (digits2_pos P) + e + bias).
Proof.
  intros He. pose proof (digits2_pos_bounds P) as [Hlo Hhi].
  pose proof (pow2_pos (e + bias) ltac:(lia)) as Hw.
  replace (Zpos (digits2_pos P) + e - 1 + bias)
    with ((Zpos (digits2_pos P) - 1) + (e + bias)) by lia.
  replace (Zpos (digits2_pos P) + e + bias)
    with (Zpos (digits2_pos P) + (e + bias)) by lia.
  rewrite (pow2_split (Zpos (digits2_pos P) - 1) (e + bias)),
    (pow2_split (Zpos (digits2_pos P)) (e + bias)) by lia.
  split.
  - apply Z.mul_le_mono_nonneg_r; lia.
  - apply Zmult_lt_compat_r; lia.
Qed.

Lemma magnitude_le (X mag k : Z) :
  2 ^ (mag - 1 + bias) <= X -> X < 2 ^ (k + bias) -> 0 <= k + bias -> mag <= k.
Proof.
  intros Hlo Hhi Hk.
  assert (Hlt : 2 ^ (mag - 1 + bias) < 2 ^ (k + bias)) by lia.
  apply Z.pow_lt_mono_r_iff in Hlt; lia.
Qed.

(** So does [binary_round], which first aligns the mantissa to the left. *)
Lemma round_rounds (S : positive) (ez : Z) :
  - bias <= ez <= 100 -> Zpos (digits2_pos S) + ez <= 1000 ->
  rounds (Zpos S * 2 ^ (ez + bias)) (Zpos (digits2_pos S) + ez)
         (binary_round prec emax false S ez).
Proof.
  intros Hez Hmag. unfold binary_round, shl_align.
  set (fe := fexp prec emax (Zpos (digits2_pos S) + ez)).
  assert (Hfe : -1074 <= fe) by (unfold fe; rewrite fexp_eq; lia).
  destruct (fe - ez) as [| d | d] eqn:E.
  - apply round_aux_rounds; assumption.
  - apply round_aux_rounds; assumption.
  - assert (Hval : Zpos (Pos.iter xO S d) * 2 ^ (fe + bias) = Zpos S * 2 ^ (ez + bias)).
    { rewrite iter_xO_value, <- Z.mul_assoc, <- pow2_split by (unfold bias; lia).
      do 2 f_equal. lia. }
    assert (Hdig : Zpos (digits2_pos (Pos.iter xO S d)) + fe = Zpos (digits2_pos S) + ez).
    { rewrite iter_xO_digits. lia. }
    rewrite <- Hval, <- Hdig.
    apply round_aux_rounds; unfold bias in *; lia.
Qed.

(** The product of two positive numbers is the rounding of the exact
    product. *)
Lemma mul_rounds (m mc : positive) (e ec : Z) :
  - bias <= e + ec <= 100 ->
  Zpos m * Zpos mc * 2 ^ (e + ec + bias) < 2 ^ (1000 + bias) ->
  exists mag,
    rounds (Zpos m * Zpos mc * 2 ^ (e + ec + bias)) mag
           (mul (S754_finite false m e) (S754_finite false mc ec))
    /\ 2 ^ (mag - 1 + bias) <= Zpos m * Zpos mc * 2 ^ (e + ec + bias) < 2 ^ (mag + bias).
Proof.
  intros He HX. unfold mul, SFmul. cbn [xorb].
  rewrite <- Pos2Z.inj_mul in *.
  pose proof (magnitude_bounds (m * mc) (e + ec) ltac:(lia)) as [Hlo Hhi].
  exists (Zpos (digits2_pos (m * mc)) + (e + ec)). split.
  - apply round_aux_rounds; [lia |].
    apply (magnitude_le (Zpos (m * mc) * 2 ^ (e + ec + bias))); unfold bias; try lia.
    + replace (Zpos (digits2_pos (m * mc)) + (e + ec) - 1 + 1200)
        with (Zpos (digits2_pos (m * mc)) + (e + ec) - 1 + bias) by reflexivity.
      exact Hlo.
    + exact HX.
  - replace (Zpos (digits2_pos (m * mc)) + (e + ec) + bias)
      with (Zpos (digits2_pos (m * mc)) + (e + ec + bias)) by lia.
    split; [exact Hlo |].
    replace (Zpos (digits2_pos (m * mc)) + (e + ec + bias))
      with (Zpos (digits2_pos (m * mc)) + (e + ec) + bias) by lia.
    exact Hhi.
Qed.

(** The sum of two positive numbers is the rounding of the exact sum. *)
Lemma add_rounds (ma mb : positive) (ea eb : Z) :
  - bias <= ea <= 100 -> - bias <= eb <= 100 ->
  Zpos ma * 2 ^ (ea + bias) + Zpos mb * 2 ^ (eb + bias) < 2 ^ (1000 + bias) ->
  exists mag,
    rounds (Zpos ma * 2 ^ (ea + bias) + Zpos mb * 2 ^ (eb + bias)) mag
           (add (S754_finite false ma ea) (S754_finite false mb eb))
    /\ 2 ^ (mag - 1 + bias) <= Zpos ma * 2 ^ (ea + bias) + Zpos mb * 2 ^ (eb + bias)
         < 2 ^ (mag + bias).
Proof.
  intros Hea Heb HX. unfold add, SFadd. cbn [cond_Zopp].
  set (ez := Z.min ea eb).
  pose proof (shl_align_fst ma ea ez ltac:(lia)) as Ha.
  pose proof (shl_align_fst mb eb ez ltac:(lia)) as Hb.
  set (sa := fst (shl_align ma ea ez)) in *.
  set (sb := fst (shl_align mb eb ez)) in *.
  change (Zpos sa + Zpos sb) with (Zpos (sa + sb)).
  cbn [binary_normalize].
  assert (Hsum : Zpos (sa + sb) * 2 ^ (ez + bias)
                 = Zpos ma * 2 ^ (ea + bias) + Zpos mb * 2 ^ (eb + bias)).
  { rewrite Pos2Z.inj_add, Ha, Hb, Z.mul_add_distr_r, <- !Z.mul_assoc.
    rewrite <- !pow2_split by lia. do 2 f_equal; f_equal; lia. }
  rewrite <- Hsum in *.
  pose proof (magnitude_bounds (sa + sb) ez ltac:(lia)) as [Hlo Hhi].
  exists (Zpos (digits2_pos (sa + sb)) + ez). split.
  - apply round_rounds; [lia |].
    apply (magnitude_le (Zpos (sa + sb) * 2 ^ (ez + bias))); [exact Hlo | exact HX |].
    unfold bias; lia.
  - split; [exact Hlo | exact Hhi].
Qed.

Lemma rounds_nonneg (X mag : Z) (R : number) :
  rounds X mag R -> 0 <= X -> 0 <= scaled R.
Proof.
  intros (_ & _ & Hge) HX.
  apply (Hge 0 (fexp prec emax mag)); lia.
Qed.

Lemma rounds_upper (X mag k mu eu : Z) (R : number) :
  rounds X mag R -> 2 ^ (mag - 1 + bias) <= X -> X < 2 ^ (k + bias) ->
  - bias <= k -> Z.max (k - 53) (-1074) <= eu ->
  X <= mu * 2 ^ (eu + bias) -> scaled R <= mu * 2 ^ (eu + bias).
Proof.
  intros (_ & Hnear & _) Hlo Hhi Hk Heu HX.
  pose proof (magnitude_le X mag k Hlo Hhi ltac:(lia)) as Hmag.
  assert (Hfe : -1074 <= fexp prec emax mag <= eu) by (rewrite fexp_eq; lia).
  apply Hnear; [lia |].
  pose proof (pow2_pos (fexp prec emax mag + bias) ltac:(unfold bias; lia)). lia.
Qed.

Lemma rounds_lower (X mag k ml el : Z) (R : number) :
  rounds X mag R -> 2 ^ (mag - 1 + bias) <= X -> X < 2 ^ (k + bias) ->
  - bias <= k -> Z.max (k - 53) (-1074) <= el ->
  ml * 2 ^ (el + bias) <= X -> ml * 2 ^ (el + bias) <= scaled R.
Proof.
  intros (_ & _ & Hge) Hlo Hhi Hk Hel HX.
  pose proof (magnitude_le X mag k Hlo Hhi ltac:(lia)) as Hmag.
  apply Hge; [rewrite fexp_eq; lia | exact HX].
Qed.

(** [Math.floor] of a positive number is the integer part of its value. *)
Lemma floor_value (m : positive) (e : Z) :
  - bias <= e ->
  Math_floor (S754_finite false m e) = lit (Zpos m * 2 ^ (e + bias) / 2 ^ bias).
Proof.
  intros He. unfold Math_floor, lit. cbn [cond_Zopp]. f_equal.
  destruct (Z.le_gt_cases 0 e) as [Hpos | Hneg].
  - rewrite Z.shiftl_mul_pow2, pow2_split, Z.mul_assoc, Z.div_mul by (unfold bias in *; lia).
    reflexivity.
  - rewrite Z.shiftl_div_pow2 by lia.
    replace bias with ((e + bias) + - e) at 2 by lia.
    rewrite (pow2_split (e + bias) (- e)) by lia.
    rewrite (Z.mul_comm (Zpos m)).
    rewrite Z.div_mul_cancel_l; [reflexivity | | ]; apply Z.pow_nonzero; lia.
Qed.


Lemma lit_1 : lit 1 = S754_finite false 4503599627370496 (-52).
Proof. vm_compute. reflexivity. Qed.
(** A draw in [0, 1) is a zero, or a positive number with an exponent of at
    most -53 and a mantissa below [2 ^ 53]. *)
Lemma unit_interval_inv (r : number) :
  unit_interval r = true ->
  (exists s, r = S754_zero s)
  \/ (exists m e, r = S754_finite false m e /\ -1074 <= e <= -53 /\ Zpos m < 2 ^ 53).
Proof.
  unfold unit_interval, le, lt. rewrite lit_1.
  remember 4503599627370496%positive as c eqn:Hc52.
  destruct r as [s | s | | s m e]; cbn [valid_binary]; intros H.
  - left. eauto.
  - destruct s; discriminate H.
  - discriminate H.
  - right. destruct s; [cbn [SFleb SFcompare] in H; rewrite andb_false_r in H; discriminate |].
    apply andb_prop in H as [H Hlt]. apply andb_prop in H as [Hb _].
    unfold bounded, canonical_mantissa in Hb.
    apply andb_prop in Hb as [Hc _]. apply Z.eqb_eq in Hc. rewrite fexp_eq in Hc.
    pose proof (digits2_pos_bounds m) as [Hlo Hhi].
    unfold SFltb, SFcompare in Hlt.
    exists m, e. split; [reflexivity |].
    destruct (Z.compare_spec e (-52)) as [E | E | E].
    + (* e = -52: the mantissa would be below 2^52 yet have 53 digits *)
      exfalso. subst e.
      assert (Hd : Zpos (digits2_pos m) = 53) by lia.
      rewrite Hd in Hlo. change (2 ^ (53 - 1)) with 4503599627370496 in Hlo.
      destruct (PosDef.Pos.compare_cont Eq m c) eqn:Ecmp;
        [discriminate Hlt | | discriminate Hlt].
      assert (Hm : (m < c)%positive) by (apply Pos.compare_lt_iff; exact Ecmp).
      lia.
    + split; [lia |].
      assert (Hd : Zpos (digits2_pos m) <= 53) by lia.
      assert (2 ^ Zpos (digits2_pos m) <= 2 ^ 53) by (apply Z.pow_le_mono_r; lia).
      lia.
    + discriminate Hlt.
Qed.

Lemma finite_positive (lo : Z) (x : number) :
  finite_from lo x -> 0 < scaled x ->
  exists m e, x = S754_finite false m e /\ lo <= e.
Proof.
  destruct x as [s | s | | [|] m e]; cbn [finite_from scaled]; intros Hf Hs;
    try contradiction; try lia.
  exists m, e. split; [reflexivity | exact Hf].
Qed.

(** Rounding to nearest, against a number [U] of the grid of magnitude [k]:
    a value below the midpoint above [U] is rounded to [U] at most. *)
Lemma rounds_near (X mag k mu : Z) (R : number) :
  rounds X mag R -> 2 ^ (mag - 1 + bias) <= X < 2 ^ (mag + bias) ->
  X < 2 ^ (k + bias) -> 0 <= k <= 53 ->
  2 ^ (k - 1 + bias) <= mu * 2 ^ (k - 53 + bias) ->
  2 * X < 2 * (mu * 2 ^ (k - 53 + bias)) + 2 ^ (k - 53 + bias) ->
  scaled R <= mu * 2 ^ (k - 53 + bias).
Proof.
  intros (_ & Hnear & _) [Hlo Hhi] HX Hk HU Hmid.
  assert (Hbias : bias = 1200) by reflexivity.
  pose proof (magnitude_le X mag k Hlo HX ltac:(lia)) as Hmag.
  apply Hnear; rewrite fexp_eq; [lia |].
  destruct (Z.eq_dec mag k) as [-> | Hne].
  - replace (Z.max (k - 53) (-1074)) with (k - 53) by lia. exact Hmid.
  - pose proof (pow2_pos (Z.max (mag - 53) (-1074) + bias) ltac:(lia)).
    assert (2 ^ (mag + bias) <= 2 ^ (k - 1 + bias)) by (apply Z.pow_le_mono_r; lia).
    lia.
Qed.

(** A draw times a positive constant: a zero, or the rounding of the exact
    product, which is below the constant. *)
Lemma mul_unit (r : number) (mc : positive) (ec : Z) :
  unit_interval r = true -> -100 <= ec <= 100 -> Zpos mc < 2 ^ 53 ->
  (exists s, r = S754_zero s /\ mul r (S754_finite false mc ec) = S754_zero s)
  \/ (exists X mag,
        rounds X mag (mul r (S754_finite false mc ec))
        /\ 2 ^ (mag - 1 + bias) <= X < 2 ^ (mag + bias)
        /\ X <= (2 ^ 53 - 1) * Zpos mc * 2 ^ (ec - 53 + bias)
        /\ X * 2 ^ bias = scaled r * (Zpos mc * 2 ^ (ec + bias))).
Proof.
  intros Hr Hec Hmc.
  assert (Hbias : bias = 1200) by reflexivity.
  destruct (unit_interval_inv r Hr) as [[s ->] | (m & e & -> & He & Hm)].
  - left. exists s. split; [reflexivity |]. cbn. destruct s; reflexivity.
  - right.
    assert (Hw : 2 ^ (e + ec + bias) <= 2 ^ (ec - 53 + bias))
      by (apply Z.pow_le_mono_r; lia).
    pose proof (pow2_pos (e + ec + bias) ltac:(lia)) as Hwpos.
    assert (HX : Zpos m * Zpos mc * 2 ^ (e + ec + bias)
                 <= (2 ^ 53 - 1) * Zpos mc * 2 ^ (ec - 53 + bias)).
    { apply Z.mul_le_mono_nonneg; try lia.
      apply Z.mul_le_mono_nonneg_r; lia. }
    assert (Hbig : (2 ^ 53 - 1) * Zpos mc * 2 ^ (ec - 53 + bias) < 2 ^ (1000 + bias)).
    { replace (1000 + bias) with (106 + (894 - ec + 53) + (ec - 53 + bias)) by lia.
      rewrite (pow2_split (106 + (894 - ec + 53))), (pow2_split 106) by lia.
      pose proof (pow2_pos (ec - 53 + bias) ltac:(lia)).
      pose proof (pow2_pos (894 - ec + 53) ltac:(lia)).
      apply Zmult_lt_compat_r; [lia |].
      change (2 ^ 106) with (2 ^ 53 * 2 ^ 53).
      assert ((2 ^ 53 - 1) * Zpos mc < 2 ^ 53 * 2 ^ 53) by nia.
      nia. }
    destruct (mul_rounds m mc e ec ltac:(lia) ltac:(lia))
      as (mag & Hrounds & Hmag).
    exists (Zpos m * Zpos mc * 2 ^ (e + ec + bias)), mag.
    split; [exact Hrounds |]. split; [exact Hmag |]. split; [exact HX |].
    cbn [scaled cond_Zopp].
    replace (e + ec + bias) with ((e + bias) + ec) by lia.
    pose proof (pow2_pos (e + bias) ltac:(lia)) as He1.
    destruct (Z.le_gt_cases 0 ec) as [Hpos | Hneg].
    + rewrite (pow2_split (e + bias) ec), (pow2_split ec bias) by lia. ring.
    + assert (Hb : 2 ^ bias = 2 ^ (- ec) * 2 ^ (ec + bias)).
      { rewrite <- pow2_split by lia. f_equal. lia. }
      assert (He2 : 2 ^ (e + bias) = 2 ^ (- ec) * 2 ^ (e + bias + ec)).
      { rewrite <- pow2_split by lia. f_equal. lia. }
      rewrite Hb, He2. ring.
Qed.

(** The integer part of [a + base], for a nonnegative [a] bounded by [A]:
    it lies in [[lo, hi]] when [base] is at least [lo] and [A + base] is
    below the midpoint above the last binary64 number under [hi + 1]. *)
Lemma floor_add_range (a : number) (mb : positive) (eb A mu k lo hi : Z) :
  finite_from (- bias) a -> 0 <= scaled a <= A ->
  - bias <= eb <= 100 -> 0 <= k <= 53 ->
  2 ^ (k - 1 + bias) <= mu * 2 ^ (k - 53 + bias) ->
  mu * 2 ^ (k - 53 + bias) < (hi + 1) * 2 ^ bias ->
  mu * 2 ^ (k - 53 + bias) < 2 ^ (k + bias) ->
  2 * (A + Zpos mb * 2 ^ (eb + bias))
    < 2 * (mu * 2 ^ (k - 53 + bias)) + 2 ^ (k - 53 + bias) ->
  Zpos mb * 2 ^ (eb + bias) < (hi + 1) * 2 ^ bias ->
  0 < lo -> lo * 2 ^ bias <= Zpos mb * 2 ^ (eb + bias) ->
  int_between lo hi (Math_floor (add a (S754_finite false mb eb))).
Proof.
  intros Hfin Ha Heb Hk HU Hhi HUk Hmid HBhi Hlo0 Hlo.
  assert (Hbias : bias = 1200) by reflexivity.
  set (B := Zpos mb * 2 ^ (eb + bias)) in *.
  set (U := mu * 2 ^ (k - 53 + bias)) in *.
  pose proof (pow2_pos bias ltac:(lia)) as Hone.
  pose proof (pow2_pos (k - 53 + bias) ltac:(lia)) as Hg.
  assert (Hfloor : forall R, finite_from (- bias) R ->
            lo * 2 ^ bias <= scaled R -> scaled R < (hi + 1) * 2 ^ bias ->
            int_between lo hi (Math_floor R)).
  { intros R HfR HloR HhiR.
    destruct (finite_positive _ _ HfR ltac:(nia)) as (m2 & e2 & -> & He2).
    rewrite floor_value by exact He2. cbn [scaled cond_Zopp] in *.
    exists (Zpos m2 * 2 ^ (e2 + bias) / 2 ^ bias). split; [ | reflexivity].
    split.
    - apply Z.div_le_lower_bound; lia.
    - assert (Zpos m2 * 2 ^ (e2 + bias) / 2 ^ bias < hi + 1); [ | lia].
      apply Z.div_lt_upper_bound; lia. }
  destruct a as [s | s | | sa ma ea]; cbn [finite_from] in Hfin; try contradiction.
  - (* a is a zero: the sum is [base] *)
    cbn [scaled] in Ha. unfold add, SFadd.
    apply Hfloor; cbn [finite_from scaled cond_Zopp]; fold B; lia.
  - destruct sa; [contradiction |]. cbn [scaled cond_Zopp] in Ha.
    assert (HX : Zpos ma * 2 ^ (ea + bias) + B < 2 ^ (k + bias)).
    { assert (Hk53 : 2 ^ (k + bias) = 2 ^ 53 * 2 ^ (k - 53 + bias)).
      { rewrite <- pow2_split by lia. f_equal. lia. }
      assert (U + 2 ^ (k - 53 + bias) <= 2 ^ (k + bias)); [ | lia].
      rewrite Hk53 in *. unfold U in *.
      assert (mu < 2 ^ 53) by nia. nia. }
    assert (Hea : ea <= 100).
    { pose proof (pow2_pos (ea + bias) ltac:(lia)).
      assert (HB : 0 < B) by nia.
      assert (2 ^ (ea + bias) < 2 ^ (k + bias)) as Hlt by nia.
      apply Z.pow_lt_mono_r_iff in Hlt; lia. }
    destruct (add_rounds ma mb ea eb ltac:(lia) Heb) as (mag & Hrounds & Hmag).
    { fold B. apply (Z.lt_trans _ (2 ^ (k + bias))); [lia |].
      apply Z.pow_lt_mono_r; lia. }
    fold B in Hrounds, Hmag.
    pose proof (rounds_near _ _ k mu _ Hrounds Hmag HX Hk HU ltac:(fold U; lia)) as Hup.
    pose proof (rounds_lower _ _ k lo 0 _ Hrounds (proj1 Hmag) HX
                  ltac:(lia) ltac:(lia)) as Hdown.
    rewrite Z.add_0_l in Hdown. specialize (Hdown ltac:(lia)).
    destruct Hrounds as (HfR & _).
    apply Hfloor; [exact HfR | exact Hdown | fold U in Hup; lia].
Qed.

Lemma span_1_6 : add (sub (lit 6) (lit 1)) (lit 1) = S754_finite false 6755399441055744 (-50).
Proof. vm_compute. reflexivity. Qed.

Lemma span_14_16 : add (sub (lit 16) (lit 14)) (lit 1) = S754_finite false 6755399441055744 (-51).
Proof. vm_compute. reflexivity. Qed.

Lemma lit_14 : lit 14 = S754_finite false 7881299347898368 (-49).
Proof. vm_compute. reflexivity. Qed.

Lemma int_between_weaken (lo hi lo' hi' : Z) (x : number) :
  lo' <= lo -> hi <= hi' -> int_between lo hi x -> int_between lo' hi' x.
Proof. intros Hl Hh (k & Hk & ->). exists k. split; [lia | reflexivity]. Qed.

(** Powers of two around [2 ^ bias], as multiples of [t = 2 ^ (bias - 104)]. *)
Lemma pow2_table :
  exists t, 0 < t
    /\ 2 ^ (-104 + bias) = t
    /\ 2 ^ (-103 + bias) = 2 ^ 1 * t
    /\ 2 ^ (-52 + bias) = 2 ^ 52 * t
    /\ 2 ^ (-51 + bias) = 2 ^ 53 * t
    /\ 2 ^ (-50 + bias) = 2 ^ 54 * t
    /\ 2 ^ (-49 + bias) = 2 ^ 55 * t
    /\ 2 ^ (-48 + bias) = 2 ^ 56 * t
    /\ 2 ^ bias = 2 ^ 104 * t
    /\ 2 ^ (1 + bias) = 2 ^ 105 * t
    /\ 2 ^ (2 + bias) = 2 ^ 106 * t
    /\ 2 ^ (3 + bias) = 2 ^ 107 * t
    /\ 2 ^ (4 + bias) = 2 ^ 108 * t
    /\ 2 ^ (5 + bias) = 2 ^ 109 * t.
Proof.
  assert (Hbias : bias = 1200) by reflexivity.
  assert (H : forall k, 0 <= k -> 2 ^ (k - 104 + bias) = 2 ^ k * 2 ^ (-104 + bias)).
  { intros k Hk. rewrite <- pow2_split by lia. f_equal. lia. }
  exists (2 ^ (-104 + bias)).
  split; [apply pow2_pos; lia |]. split; [reflexivity |].
  split; [rewrite <- (H 1) by lia; f_equal; lia |].
  split; [rewrite <- (H 52) by lia; f_equal; lia |].
  split; [rewrite <- (H 53) by lia; f_equal; lia |].
  split; [rewrite <- (H 54) by lia; f_equal; lia |].
  split; [rewrite <- (H 55) by lia; f_equal; lia |].
  split; [rewrite <- (H 56) by lia; f_equal; lia |].
  split; [rewrite <- (H 104) by lia; f_equal; lia |].
  split; [rewrite <- (H 105) by lia; f_equal; lia |].
  split; [rewrite <- (H 106) by lia; f_equal; lia |].
  split; [rewrite <- (H 107) by lia; f_equal; lia |].
  split; [rewrite <- (H 108) by lia; f_equal; lia |].
  rewrite <- (H 109) by lia; f_equal; lia.
Qed.

Ltac use_pow2_table :=
  destruct pow2_table
    as (t & Ht & E104 & E103 & E52 & E51 & E50 & E49 & E48 & E0 & E1 & E2 & E3 & E4 & E5);
  change (-50 - 53 + bias) with (-103 + bias) in *;
  change (-51 - 53 + bias) with (-104 + bias) in *;
  change (0 + bias) with bias in *;
  change (1 - 53 + bias) with (-52 + bias) in *;
  change (2 - 53 + bias) with (-51 + bias) in *;
  change (3 - 53 + bias) with (-50 + bias) in *;
  change (4 - 53 + bias) with (-49 + bias) in *;
  change (5 - 53 + bias) with (-48 + bias) in *;
  change (1 - 1 + bias) with bias in *;
  change (2 - 1 + bias) with (1 + bias) in *;
  change (3 - 1 + bias) with (2 + bias) in *;
  change (4 - 1 + bias) with (3 + bias) in *;
  change (5 - 1 + bias) with (4 + bias) in *;
  rewrite ?E104, ?E103, ?E52, ?E51, ?E50, ?E49, ?E48, ?E0, ?E1, ?E2, ?E3, ?E4, ?E5 in *;
  clear E104 E103 E52 E51 E50 E49 E48 E0 E1 E2 E3 E4 E5.

Ltac bias_lia :=
  lazymatch goal with
  | |- context [Z.pow] => use_pow2_table; lia
  | _ => unfold bias; lia
  end.

(** [randomIntFromInterval(1, 6)] returns an integer from 1 to 6, whatever
    the draw. *)
Lemma randomInt_1_6 (r : number) :
  unit_interval r = true -> int_between 1 6 (randomInt_of (lit 1) (lit 6) r).
Proof.
  intros Hr. unfold randomInt_of. rewrite span_1_6, lit_1.
  destruct (mul_unit r 6755399441055744 (-50) Hr ltac:(lia) ltac:(lia))
    as [(s & _ & ->) | (X & mag & Hrounds & Hmag & HX & _)].
  - apply (floor_add_range _ _ _ 0 (2 ^ 52) 1); cbn [finite_from scaled];
      first [exact I | bias_lia].
  - assert (Hup : scaled (mul r (S754_finite false 6755399441055744 (-50)))
                  <= (3 * 2 ^ 51 - 1) * 2 ^ (3 - 53 + bias)).
    { apply (rounds_near X mag 3 _ _ Hrounds Hmag); bias_lia. }
    assert (Hnn : 0 <= scaled (mul r (S754_finite false 6755399441055744 (-50)))).
    { apply (rounds_nonneg _ _ _ Hrounds).
      pose proof (pow2_pos (mag - 1 + bias)). lia. }
    destruct Hrounds as (Hfin & _).
    apply (floor_add_range _ _ _ ((3 * 2 ^ 51 - 1) * 2 ^ (3 - 53 + bias)) (7 * 2 ^ 50 - 1) 3);
      first [exact Hfin | bias_lia].
Qed.

(** [randomIntFromInterval(14, 16)] returns an integer from 14 to 17,
    whatever the draw. *)
Lemma randomInt_14_17 (r : number) :
  unit_interval r = true -> int_between 14 17 (randomInt_of (lit 14) (lit 16) r).
Proof.
  intros Hr. unfold randomInt_of. rewrite span_14_16, lit_14.
  destruct (mul_unit r 6755399441055744 (-51) Hr ltac:(lia) ltac:(lia))
    as [(s & _ & ->) | (X & mag & Hrounds & Hmag & HX & _)].
  - apply (int_between_weaken 14 14); [lia | lia |].
    apply (floor_add_range _ _ _ 0 (14 * 2 ^ 49) 4); cbn [finite_from scaled];
      first [exact I | bias_lia].
  - assert (Hup : scaled (mul r (S754_finite false 6755399441055744 (-51)))
                  <= 3 * 2 ^ (0 + bias)).
    { apply (rounds_upper X mag 2 3 0 _ Hrounds (proj1 Hmag)); bias_lia. }
    assert (Hnn : 0 <= scaled (mul r (S754_finite false 6755399441055744 (-51)))).
    { apply (rounds_nonneg _ _ _ Hrounds).
      pose proof (pow2_pos (mag - 1 + bias)). lia. }
    destruct Hrounds as (Hfin & _).
    apply (floor_add_range _ _ _ (3 * 2 ^ (0 + bias)) (17 * 2 ^ 48) 5);
      first [exact Hfin | bias_lia].
Qed.

(** Below [1 - 2^-50] the weight draw stays within [14, 16]. *)
Lemma randomInt_14_16_below (r : number) :
  unit_interval r = true ->
  scaled r <= (2 ^ 50 - 1) * 2 ^ (-50 + bias) ->
  int_between 14 16 (randomInt_of (lit 14) (lit 16) r).
Proof.
  intros Hr Hbelow. unfold randomInt_of. rewrite span_14_16, lit_14.
  destruct (mul_unit r 6755399441055744 (-51) Hr ltac:(lia) ltac:(lia))
    as [(s & _ & ->) | (X & mag & Hrounds & Hmag & HX & Hprod)].
  - apply (int_between_weaken 14 14); [lia | lia |].
    apply (floor_add_range _ _ _ 0 (14 * 2 ^ 49) 4); cbn [finite_from scaled];
      first [exact I | bias_lia].
  - assert (Hup : scaled (mul r (S754_finite false 6755399441055744 (-51)))
                  <= (3 * 2 ^ 51 - 6) * 2 ^ (-51 + bias)).
    { assert (HX3 : X = 3 * scaled r).
      { clear - Hprod. use_pow2_table. nia. }
      apply (rounds_upper X mag 2 _ (-51) _ Hrounds (proj1 Hmag)); bias_lia. }
    assert (Hnn : 0 <= scaled (mul r (S754_finite false 6755399441055744 (-51)))).
    { apply (rounds_nonneg _ _ _ Hrounds).
      pose proof (pow2_pos (mag - 1 + bias)). lia. }
    destruct Hrounds as (Hfin & _).
    apply (floor_add_range _ _ _ ((3 * 2 ^ 51 - 6) * 2 ^ (-51 + bias)) (17 * 2 ^ 48 - 1) 5);
      first [exact Hfin | bias_lia].
Qed.

(** *** Integers held exactly, and the general range *)

(** [binary_round] keeps the exponent at or above the one it is given and
    the one of the target format. *)
Lemma round_finite (S : positive) (ez : Z) :
  - bias <= ez <= 100 -> Zpos (digits2_pos S) + ez <= 1000 ->
  finite_from (Z.min ez (fexp prec emax (Zpos (digits2_pos S) + ez)))
              (binary_round prec emax false S ez).
Proof.
  intros Hez Hmag. unfold binary_round, shl_align.
  set (fe := fexp prec emax (Zpos (digits2_pos S) + ez)).
  assert (Hfe : -1074 <= fe) by (unfold fe; rewrite fexp_eq; lia).
  destruct (fe - ez) as [| d | d] eqn:E.
  - apply (finite_from_weaken _ ez); [lia |].
    apply (round_aux_value S ez Hez Hmag).
  - apply (finite_from_weaken _ ez); [lia |].
    apply (round_aux_value S ez Hez Hmag).
  - apply (finite_from_weaken _ fe); [lia |].
    apply (round_aux_value (Pos.iter xO S d) fe).
    + unfold bias in *. lia.
    + rewrite iter_xO_digits. lia.
Qed.

(** A value that lies on the grid of its magnitude is not changed by
    rounding. *)
Lemma rounds_exact (X mag mu eu : Z) (R : number) :
  rounds X mag R -> fexp prec emax mag <= eu -> - bias <= fexp prec emax mag ->
  X = mu * 2 ^ (eu + bias) -> scaled R = X.
Proof.
  intros (_ & Hnear & Hge) Heu Hfe ->.
  pose proof (pow2_pos (fexp prec emax mag + bias) ltac:(lia)) as Hg.
  apply Z.le_antisymm.
  - apply Hnear; [exact Heu | lia].
  - apply Hge; [exact Heu | lia].
Qed.

(** Rounding an integer below [2 ^ 53] returns it. *)
Lemma round_exact (S : positive) (ez k : Z) :
  -52 <= ez <= 100 -> 0 < k < 2 ^ 53 ->
  Zpos S * 2 ^ (ez + bias) = k * 2 ^ bias ->
  holds_int k (binary_round prec emax false S ez).
Proof.
  intros Hez Hk Hval.
  assert (Hbias : bias = 1200) by reflexivity.
  pose proof (magnitude_bounds S ez ltac:(lia)) as [Hlo Hhi].
  set (mag := Zpos (digits2_pos S) + ez) in *.
  pose proof (pow2_pos bias ltac:(lia)) as Hone.
  assert (Hmag1 : 1 <= mag).
  { assert (Hlt : 2 ^ bias < 2 ^ (mag + bias)) by nia.
    apply Z.pow_lt_mono_r_iff in Hlt; lia. }
  assert (Hmag53 : mag <= 53).
  { apply (magnitude_le (Zpos S * 2 ^ (ez + bias))); [exact Hlo | | lia].
    rewrite Hval, (pow2_split 53 bias) by lia. nia. }
  pose proof (round_rounds S ez ltac:(lia) ltac:(fold mag; lia)) as Hrounds.
  pose proof (round_finite S ez ltac:(lia) ltac:(fold mag; lia)) as Hfin.
  fold mag in Hrounds, Hfin.
  assert (Hfexp : -52 <= fexp prec emax mag <= 0) by (rewrite fexp_eq; lia).
  pose proof (rounds_exact _ _ k 0 _ Hrounds ltac:(lia) ltac:(lia)
                ltac:(rewrite Hval; reflexivity)) as Hexact.
  set (R := binary_round prec emax false S ez) in *.
  assert (Hpos : 0 < scaled R).
  { rewrite Hexact, Hval. apply Z.mul_pos_pos; lia. }
  clear Hrounds Hlo Hhi.
  destruct R as [s | s | | [|] m e]; cbn [finite_from scaled holds_int] in *;
    try contradiction; try lia.
  split; [lia |]. cbn [cond_Zopp] in Hexact. lia.
Qed.

Lemma lit_holds (k : Z) : 0 <= k < 2 ^ 53 -> holds_int k (lit k).
Proof.
  intros Hk. unfold lit. destruct k as [| p | p]; [cbn; auto | | lia].
  cbn [binary_normalize]. apply round_exact; [lia | lia |].
  rewrite Z.add_0_l. reflexivity.
Qed.

Lemma holds_int_nonneg (k : Z) (x : number) : holds_int k x -> 0 <= k.
Proof.
  destruct x as [s | s | | [|] m e]; cbn [holds_int]; try tauto; [lia |].
  intros [He Hv]. pose proof (pow2_pos (e + bias) ltac:(unfold bias; lia)).
  pose proof (pow2_pos bias ltac:(unfold bias; lia)). nia.
Qed.

Lemma holds_int_exp (k : Z) (m : positive) (e : Z) :
  holds_int k (S754_finite false m e) -> k < 2 ^ 53 -> 0 < k /\ -52 <= e < 53.
Proof.
  cbn [holds_int]. intros [He Hv] Hk.
  assert (Hbias : bias = 1200) by reflexivity.
  pose proof (pow2_pos (e + bias) ltac:(lia)) as Hw.
  pose proof (pow2_pos bias ltac:(lia)) as Hone.
  split; [nia |]. split; [exact He |].
  assert (Hlt : 2 ^ (e + bias) < 2 ^ (53 + bias)).
  { rewrite (pow2_split 53 bias) by lia. nia. }
  apply Z.pow_lt_mono_r_iff in Hlt; lia.
Qed.

(** The sum of two integers, below [2 ^ 53], is exact. *)
Lemma add_holds (a b : Z) (x y : number) :
  holds_int a x -> holds_int b y -> a + b < 2 ^ 53 -> holds_int (a + b) (add x y).
Proof.
  intros Hx Hy Hsum.
  pose proof (holds_int_nonneg a x Hx) as Ha.
  pose proof (holds_int_nonneg b y Hy) as Hb.
  destruct x as [sx | sx | | [|] ma ea]; cbn [holds_int] in Hx; try contradiction.
  - destruct Hx as [-> ->].
    destruct y as [sy | sy | | [|] mb eb]; cbn [holds_int] in Hy; try contradiction.
    + destruct Hy as [-> ->]. cbn. auto.
    + exact Hy.
  - destruct y as [sy | sy | | [|] mb eb]; cbn [holds_int] in Hy; try contradiction.
    + destruct Hy as [-> ->]. rewrite Z.add_0_r. exact Hx.
    + destruct (holds_int_exp a ma ea Hx ltac:(lia)) as [Ha0 Hea].
      destruct (holds_int_exp b mb eb Hy ltac:(lia)) as [Hb0 Heb].
      destruct Hx as [_ Hva]. destruct Hy as [_ Hvb].
      unfold add, SFadd. cbn [cond_Zopp].
      set (ez := Z.min ea eb).
      pose proof (shl_align_fst ma ea ez ltac:(lia)) as Hsa.
      pose proof (shl_align_fst mb eb ez ltac:(lia)) as Hsb.
      set (sa := fst (shl_align ma ea ez)) in *.
      set (sb := fst (shl_align mb eb ez)) in *.
      change (Zpos sa + Zpos sb) with (Zpos (sa + sb)).
      cbn [binary_normalize].
      apply round_exact; [lia | lia |].
      rewrite Pos2Z.inj_add, Hsa, Hsb, Z.mul_add_distr_r, <- !Z.mul_assoc.
      rewrite <- !pow2_split by (unfold bias; lia).
      replace (ea - ez + (ez + bias)) with (ea + bias) by lia.
      replace (eb - ez + (ez + bias)) with (eb + bias) by lia.
      rewrite Hva, Hvb. ring.
Qed.

(** The difference of two integers is exact. *)
Lemma sub_holds (a b : Z) (x y : number) :
  holds_int a x -> holds_int b y -> b <= a < 2 ^ 53 -> holds_int (a - b) (sub x y).
Proof.
  intros Hx Hy Hab.
  pose proof (holds_int_nonneg b y Hy) as Hb.
  destruct x as [sx | sx | | [|] ma ea]; cbn [holds_int] in Hx; try contradiction.
  - destruct Hx as [-> ->].
    destruct y as [sy | sy | | [|] mb eb]; cbn [holds_int] in Hy; try contradiction.
    + destruct Hy as [-> ->]. cbn. auto.
    + destruct (holds_int_exp b mb eb Hy ltac:(lia)) as [Hb0 _]. lia.
  - destruct y as [sy | sy | | [|] mb eb]; cbn [holds_int] in Hy; try contradiction.
    + destruct Hy as [-> ->]. rewrite Z.sub_0_r. exact Hx.
    + destruct (holds_int_exp a ma ea Hx ltac:(lia)) as [Ha0 Hea].
      destruct (holds_int_exp b mb eb Hy ltac:(lia)) as [Hb0 Heb].
      destruct Hx as [_ Hva]. destruct Hy as [_ Hvb].
      unfold sub, SFsub. cbn [cond_Zopp].
      set (ez := Z.min ea eb).
      pose proof (shl_align_fst ma ea ez ltac:(lia)) as Hsa.
      pose proof (shl_align_fst mb eb ez ltac:(lia)) as Hsb.
      set (sa := fst (shl_align ma ea ez)) in *.
      set (sb := fst (shl_align mb eb ez)) in *.
      assert (Hbias : bias = 1200) by reflexivity.
      pose proof (pow2_pos (ez + bias) ltac:(lia)) as Hw.
      assert (Hval : (Zpos sa - Zpos sb) * 2 ^ (ez + bias) = (a - b) * 2 ^ bias).
      { rewrite Hsa, Hsb, Z.mul_sub_distr_r, <- !Z.mul_assoc.
        rewrite <- !pow2_split by lia.
        replace (ea - ez + (ez + bias)) with (ea + bias) by lia.
        replace (eb - ez + (ez + bias)) with (eb + bias) by lia.
        rewrite Hva, Hvb. ring. }
      pose proof (pow2_pos bias ltac:(lia)) as Hone.
      clear Hva Hvb Hsa Hsb.
      destruct (Zpos sa - Zpos sb) as [| P | P] eqn:ED.
      * cbn [binary_normalize holds_int]. split; [ | reflexivity].
        rewrite Z.mul_0_l in Hval. symmetry in Hval.
        apply Z.eq_mul_0 in Hval as [Hval | Hval]; lia.
      * cbn [binary_normalize]. apply round_exact; [lia | | exact Hval].
        split; [ | lia].
        apply (Z.mul_pos_cancel_r _ (2 ^ bias) Hone). rewrite <- Hval.
        apply Z.mul_pos_pos; lia.
      * exfalso.
        assert (Z.neg P * 2 ^ (ez + bias) < 0) by (apply Z.mul_neg_pos; lia).
        assert (0 <= (a - b) * 2 ^ bias) by (apply Z.mul_nonneg_nonneg; lia).
        lia.
Qed.

(** A draw times a positive number [c] below [2 ^ 53]: a zero, or the
    rounding of the exact product, which is at most [(1 - 2^-53) * c]. *)
Lemma mul_unit_under (r : number) (mc : positive) (ec : Z) :
  unit_interval r = true -> -100 <= ec ->
  Zpos mc * 2 ^ (ec + bias) < 2 ^ (53 + bias) ->
  (exists s, mul r (S754_finite false mc ec) = S754_zero s)
  \/ (exists X mag,
        rounds X mag (mul r (S754_finite false mc ec))
        /\ 2 ^ (mag - 1 + bias) <= X < 2 ^ (mag + bias)
        /\ 2 ^ 53 * X <= (2 ^ 53 - 1) * (Zpos mc * 2 ^ (ec + bias))).
Proof.
  intros Hr Hec Hc.
  assert (Hbias : bias = 1200) by reflexivity.
  destruct (unit_interval_inv r Hr) as [[s ->] | (m & e & -> & He & Hm)].
  - left. exists s. cbn. destruct s; reflexivity.
  - right.
    pose proof (pow2_pos (ec + bias) ltac:(lia)) as Hcpos.
    assert (Hec53 : ec < 53).
    { assert (Hlt : 2 ^ (ec + bias) < 2 ^ (53 + bias)) by nia.
      apply Z.pow_lt_mono_r_iff in Hlt; lia. }
    pose proof (pow2_pos (e + ec + bias) ltac:(lia)) as Hwpos.
    assert (Hw : 2 ^ 53 * 2 ^ (e + ec + bias) <= 2 ^ (ec + bias)).
    { rewrite <- pow2_split by lia. apply Z.pow_le_mono_r; lia. }
    assert (HX : 2 ^ 53 * (Zpos m * Zpos mc * 2 ^ (e + ec + bias))
                 <= (2 ^ 53 - 1) * (Zpos mc * 2 ^ (ec + bias))).
    { set (w := 2 ^ (e + ec + bias)) in *. set (v := 2 ^ (ec + bias)) in *.
      replace (2 ^ 53 * (Zpos m * Zpos mc * w)) with (Zpos m * (Zpos mc * (2 ^ 53 * w)))
        by ring.
      apply Z.mul_le_mono_nonneg; [lia | lia | | ].
      - apply Z.mul_nonneg_nonneg; lia.
      - apply Z.mul_le_mono_nonneg_l; lia. }
    destruct (mul_rounds m mc e ec ltac:(lia)) as (mag & Hrounds & Hmag).
    { apply (Z.lt_trans _ (Zpos mc * 2 ^ (ec + bias))); [ | ].
      - pose proof (Z.mul_pos_pos (Zpos mc) (2 ^ (ec + bias)) ltac:(lia) Hcpos). lia.
      - apply (Z.lt_trans _ _ _ Hc). apply Z.pow_lt_mono_r; lia. }
    exists (Zpos m * Zpos mc * 2 ^ (e + ec + bias)), mag.
    split; [exact Hrounds |]. split; [exact Hmag | exact HX].
Qed.

(** [Math.floor] of a number at least [lo] and below [hi + 1]. *)
Lemma floor_below (lo hi : Z) (R : number) :
  finite_from (- bias) R -> R <> S754_zero true -> 0 <= lo ->
  lo * 2 ^ bias <= scaled R -> scaled R < (hi + 1) * 2 ^ bias ->
  int_between lo hi (Math_floor R).
Proof.
  intros HfR Hnz Hlo0 HloR HhiR.
  assert (Hbias : bias = 1200) by reflexivity.
  pose proof (pow2_pos bias ltac:(lia)) as Hone.
  destruct R as [s | s | | [|] m e]; cbn [finite_from scaled] in *; try contradiction.
  - destruct s; [contradiction Hnz; reflexivity |].
    exists 0. split; [nia | reflexivity].
  - rewrite floor_value by exact HfR. cbn [cond_Zopp] in *.
    exists (Zpos m * 2 ^ (e + bias) / 2 ^ bias). split; [ | reflexivity].
    split.
    + apply Z.div_le_lower_bound; lia.
    + assert (Zpos m * 2 ^ (e + bias) / 2 ^ bias < hi + 1); [ | lia].
      apply Z.div_lt_upper_bound; lia.
Qed.

(** A zero added to an integer is that integer. *)
Lemma add_zero_holds (s : bool) (k : Z) (y : number) :
  holds_int k y -> holds_int k (add (S754_zero s) y).
Proof.
  destruct y as [sy | sy | | [|] m e]; cbn [holds_int]; try contradiction.
  - intros [-> ->]. destruct s; cbn; auto.
  - intros H. exact H.
Qed.

Lemma floor_holds (k hi : Z) (x : number) :
  holds_int k x -> k <= hi -> int_between k hi (Math_floor x).
Proof.
  intros Hx Hhi. pose proof (holds_int_nonneg k x Hx) as Hk.
  assert (Hbias : bias = 1200) by reflexivity.
  pose proof (pow2_pos bias ltac:(lia)) as Hone.
  assert (Hval : scaled x = k * 2 ^ bias).
  { destruct x as [s | s | | [|] m e]; cbn [holds_int scaled cond_Zopp] in *;
      try contradiction; [destruct Hx as [-> _]; reflexivity | apply Hx]. }
  apply floor_below.
  - destruct x as [s | s | | [|] m e]; cbn [holds_int finite_from] in *;
      try contradiction; [exact I | lia].
  - intros ->. cbn in Hx. destruct Hx as [_ Hx]. discriminate Hx.
  - exact Hk.
  - rewrite Hval. lia.
  - rewrite Hval. apply Zmult_lt_compat_r; lia.
Qed.

(** [randomIntFromInterval(min, max)] on integers [0 <= min <= max]: an
    integer from [min] to [max + 1], whatever the draw. *)
Lemma randomInt_general (min max : Z) (r : number) :
  0 <= min <= max -> max < 2 ^ 52 -> unit_interval r = true ->
  int_between min (max + 1) (randomInt_of (lit min) (lit max) r).
Proof.
  intros Hmin Hmax Hr. unfold randomInt_of.
  assert (Hbias : bias = 1200) by reflexivity.
  pose proof (lit_holds min ltac:(lia)) as Hbase.
  assert (Hspan : holds_int (max - min + 1) (add (sub (lit max) (lit min)) (lit 1))).
  { apply add_holds; [ | apply lit_holds; lia | lia].
    apply sub_holds; [apply lit_holds; lia | exact Hbase | lia]. }
  assert (Hzero : forall s, int_between min (max + 1)
                              (Math_floor (add (S754_zero s) (lit min)))).
  { intros s. apply floor_holds; [apply add_zero_holds, Hbase | lia]. }
  pose proof (pow2_pos bias ltac:(lia)) as Hone.
  assert (H53 : 2 ^ (53 + bias) = 2 ^ 53 * 2 ^ bias) by (apply pow2_split; lia).
  (* the span and the base, as multiples of one *)
  assert (EH : (max + 1) * 2 ^ bias = (max - min + 1) * 2 ^ bias + min * 2 ^ bias) by ring.
  assert (HYlo : 2 ^ bias <= (max - min + 1) * 2 ^ bias).
  { replace (2 ^ bias) with (1 * 2 ^ bias) at 1 by ring.
    apply Z.mul_le_mono_nonneg_r; lia. }
  assert (HM : 0 <= min * 2 ^ bias) by (apply Z.mul_nonneg_nonneg; lia).
  assert (HYM : (max + 1) * 2 ^ bias <= 2 ^ 52 * 2 ^ bias)
    by (apply Z.mul_le_mono_nonneg_r; lia).
  assert (Hn1 : 1 <= max - min + 1) by lia.
  set (n := max - min + 1) in *.
  destruct (add (sub (lit max) (lit min)) (lit 1)) as [sc | sc | | [|] mc ec];
    cbn [holds_int] in Hspan; try contradiction; [lia |].
  destruct Hspan as [Hec Hc].
  set (B := 2 ^ bias) in *. set (Y := n * B) in *.
  assert (EM : min * B = min * B) by reflexivity.
  set (M := min * B) in HM, EH, EM at 1.
  rewrite EH in HYM.
  destruct (mul_unit_under r mc ec Hr ltac:(lia)) as [(s & ->) | (X & mag & Hrounds & Hmag & HX)].
  { rewrite Hc, H53. clear - HYM HM Hone. lia. }
  { apply Hzero. }
  rewrite Hc in HX. clear Hc Hec Hr.
  set (a := mul r (S754_finite false mc ec)) in *.
  assert (Hup : scaled a <= n * 2 ^ (0 + bias)).
  { apply (rounds_upper X mag 53 n 0 _ Hrounds (proj1 Hmag)); [ | lia | lia | ].
    - rewrite H53. clear - HX HYM HM Hone HYlo. lia.
    - change (0 + bias) with bias. fold B. fold Y. clear - HX HYlo Hone. lia. }
  change (0 + bias) with bias in Hup. fold B in Hup. fold Y in Hup.
  assert (Hnn : 0 <= scaled a).
  { apply (rounds_nonneg _ _ _ Hrounds). pose proof (pow2_pos (mag - 1 + bias)). lia. }
  destruct Hrounds as (Hfin & _). clear Hmag HX X mag.
  destruct a as [s | s | | [|] ma ea]; cbn [finite_from scaled cond_Zopp] in *;
    try contradiction; [apply Hzero |].
  clear Hzero.
  destruct (lit min) as [sb | sb | | [|] mb eb] eqn:Elit;
    cbn [holds_int] in Hbase; try contradiction.
  - (* min = 0 *)
    destruct Hbase as [Hmin0 _]. unfold add, SFadd.
    apply floor_below; [exact Hfin | discriminate | lia | | ]; cbn [scaled cond_Zopp].
    + rewrite Hmin0. lia.
    + fold B. replace ((max + 1 + 1) * B) with ((max + 1) * B + B) by ring.
      rewrite EH. clear - Hup HM Hone. lia.
  - destruct (holds_int_exp min mb eb Hbase ltac:(lia)) as [Hmin0 Heb].
    destruct Hbase as [_ Hb]. fold B in Hb. rewrite <- EM in Hb.
    pose proof (pow2_pos (ea + bias) ltac:(lia)) as Hwa.
    assert (Hea : ea < 53).
    { assert (Hlt : 2 ^ (ea + bias) < 2 ^ (53 + bias)).
      { rewrite H53.
        assert (2 ^ (ea + bias) <= Zpos ma * 2 ^ (ea + bias)).
        { replace (2 ^ (ea + bias)) with (1 * 2 ^ (ea + bias)) at 1 by ring.
          apply Z.mul_le_mono_nonneg_r; lia. }
        clear - H Hup HYM HM Hone. lia. }
      apply Z.pow_lt_mono_r_iff in Hlt; lia. }
    assert (Hsum : Zpos ma * 2 ^ (ea + bias) + Zpos mb * 2 ^ (eb + bias) <= Y + M)
      by (clear - Hup Hb; lia).
    assert (H1000 : 2 ^ (53 + bias) < 2 ^ (1000 + bias)) by (apply Z.pow_lt_mono_r; lia).
    destruct (add_rounds ma mb ea eb ltac:(lia) ltac:(lia)) as (mag & Hrounds & Hmag).
    { rewrite H53 in H1000. clear - H1000 Hsum HYM Hone. lia. }
    set (R := add (S754_finite false ma ea) (S754_finite false mb eb)) in *.
    assert (HupR : scaled R <= (max + 1) * 2 ^ (0 + bias)).
    { apply (rounds_upper _ mag 53 _ 0 _ Hrounds (proj1 Hmag)).
      - rewrite H53. clear - Hsum HYM Hone. lia.
      - lia.
      - lia.
      - change (0 + bias) with bias. fold B. rewrite EH. exact Hsum. }
    change (0 + bias) with bias in HupR. fold B in HupR. rewrite EH in HupR.
    assert (HloR : min * 2 ^ (0 + bias) <= scaled R).
    { apply (rounds_lower _ mag 53 min 0 _ Hrounds (proj1 Hmag)).
      - rewrite H53. clear - Hsum HYM Hone. lia.
      - lia.
      - lia.
      - change (0 + bias) with bias. fold B. rewrite <- EM. clear - Hb Hwa. lia. }
    change (0 + bias) with bias in HloR. fold B in HloR.
    destruct Hrounds as (HfinR & _).
    apply floor_below; [exact HfinR | | lia | exact HloR | ].
    + intros HR. rewrite HR in HloR. cbn [scaled] in HloR.
      assert (0 < min * B); [apply Z.mul_pos_pos; lia | lia].
    + fold B. replace ((max + 1 + 1) * B) with ((max + 1) * B + B) by ring.
      rewrite EH. clear - HupR Hone. lia.
Qed.

(** The numbers of the interval [(2^j, 2^(j+1)]] as multiples of the step
    [g] of the binary64 grid there. *)
Lemma binade_grid (j n H : Z) :
  0 <= j < 52 -> 2 ^ j < n -> n <= H -> H <= 2 ^ (j + 1) ->
  exists g Y M,
    0 < g /\ g = 2 ^ (j - 52 + bias)
    /\ 2 ^ (j + 1 + bias) = 2 ^ 53 * g
    /\ 2 ^ (j + 1 - 1 + bias) = 2 ^ 52 * g
    /\ n * 2 ^ bias = Y /\ (H - n) * 2 ^ bias = M /\ H * 2 ^ bias = Y + M
    /\ (2 ^ 52 + 1) * g <= Y /\ Y + M <= 2 ^ 53 * g /\ 0 <= M
    /\ (exists N, Y = N * g) /\ (exists K, Y + M = K * g)
    /\ 2 ^ (53 + bias) = 2 ^ 53 * 2 ^ bias /\ g <= 2 ^ bias.
Proof.
  intros Hj Hlow HnH Hhigh.
  assert (Hbias : bias = 1200) by reflexivity.
  set (g := 2 ^ (j - 52 + bias)). set (q := 2 ^ (52 - j)).
  assert (Hg : 0 < g) by (apply pow2_pos; lia).
  assert (Hq : 0 < q) by (apply pow2_pos; lia).
  assert (Hone : 2 ^ bias = q * g).
  { unfold q, g. rewrite <- pow2_split by lia. f_equal. lia. }
  assert (Hjq : 2 ^ j * q = 2 ^ 52).
  { unfold q. rewrite <- pow2_split by lia. f_equal. lia. }
  assert (Hjj : 2 ^ (j + 1) = 2 * 2 ^ j).
  { rewrite Z.pow_add_r by lia. change (2 ^ 1) with 2. lia. }
  pose proof (pow2_pos j ltac:(lia)) as Hpj.
  set (P := 2 ^ j) in *. rewrite Hjj in Hhigh. clear Hjj.
  assert (HN : 2 ^ 52 + 1 <= n * q).
  { rewrite <- Hjq. replace (P * q + 1) with ((P + 1) * q - (q - 1)) by ring.
    assert ((P + 1) * q <= n * q) by (apply Z.mul_le_mono_nonneg_r; lia). lia. }
  assert (HH : H * q <= 2 ^ 53).
  { replace (2 ^ 53) with (2 * 2 ^ 52) by reflexivity. rewrite <- Hjq.
    replace (2 * (P * q)) with (2 * P * q) by ring.
    apply Z.mul_le_mono_nonneg_r; lia. }
  exists g, (n * q * g), ((H - n) * q * g).
  split; [exact Hg |]. split; [reflexivity |].
  split; [unfold g; rewrite <- pow2_split by lia; f_equal; lia |].
  split; [unfold g; rewrite <- pow2_split by lia; f_equal; lia |].
  rewrite Hone.
  split; [ring |]. split; [ring |]. split; [ring |].
  split; [apply Z.mul_le_mono_nonneg_r; lia |].
  split; [replace (n * q * g + (H - n) * q * g) with (H * q * g) by ring;
          apply Z.mul_le_mono_nonneg_r; lia |].
  split; [apply Z.mul_nonneg_nonneg; [apply Z.mul_nonneg_nonneg |]; lia |].
  split; [exists (n * q); reflexivity |].
  split; [exists (H * q); ring |].
  split; [rewrite <- Hone; apply pow2_split; lia |].
  replace g with (1 * g) at 1 by ring. apply Z.mul_le_mono_nonneg_r; lia.
Qed.

(** When [max - min + 1] and [max + 1] lie in the same interval
    [(2^j, 2^(j+1)]], [randomIntFromInterval(min, max)] stays within
    [[min, max]], whatever the draw. *)
Lemma randomInt_within (min max j : Z) (r : number) :
  0 <= min <= max -> 0 <= j -> 2 ^ j < max - min + 1 -> max + 1 <= 2 ^ (j + 1) ->
  max < 2 ^ 52 -> unit_interval r = true ->
  int_between min max (randomInt_of (lit min) (lit max) r).
Proof.
  intros Hmin Hj Hlow Hhigh Hmax Hr. unfold randomInt_of.
  assert (Hbias : bias = 1200) by reflexivity.
  assert (Hj52 : j < 52).
  { assert (Hlt : 2 ^ j < 2 ^ 52) by lia.
    apply Z.pow_lt_mono_r_iff in Hlt; lia. }
  pose proof (lit_holds min ltac:(lia)) as Hbase.
  assert (Hspan : holds_int (max - min + 1) (add (sub (lit max) (lit min)) (lit 1))).
  { apply add_holds; [ | apply lit_holds; lia | lia].
    apply sub_holds; [apply lit_holds; lia | exact Hbase | lia]. }
  assert (Hzero : forall s, int_between min max
                              (Math_floor (add (S754_zero s) (lit min)))).
  { intros s. apply floor_holds; [apply add_zero_holds, Hbase | lia]. }
  destruct (binade_grid j (max - min + 1) (max + 1) ltac:(lia) Hlow ltac:(lia) Hhigh)
    as (g & Y & M & Hg & Eg & H53g & H52g & EY & EM & EH & HYlo & HYM & HM
        & (N & EN) & (K & EK) & H53 & Hgone).
  replace (max + 1 - (max - min + 1)) with min in EM by lia.
  pose proof (pow2_pos j Hj) as Hpj.
  assert (Hn1 : 1 <= max - min + 1) by lia.
  clear Hlow Hhigh Hpj.
  set (n := max - min + 1) in *.
  destruct (add (sub (lit max) (lit min)) (lit 1)) as [sc | sc | | [|] mc ec];
    cbn [holds_int] in Hspan; try contradiction; [lia |].
  destruct Hspan as [Hec Hc]. rewrite EY in Hc.
  destruct (mul_unit_under r mc ec Hr ltac:(lia)) as [(s & ->) | (X & mag & Hrounds & Hmag & HX)].
  { rewrite Hc, H53, <- EY. apply Zmult_lt_compat_r; [apply pow2_pos |]; lia. }
  { apply Hzero. }
  rewrite Hc in HX. clear Hc Hec Hr.
  set (a := mul r (S754_finite false mc ec)) in *.
  assert (Hup : scaled a <= (N - 1) * 2 ^ (j + 1 - 53 + bias)).
  { apply (rounds_near X mag (j + 1) _ _ Hrounds Hmag).
    - rewrite H53g. clear - HX HYM HM Hg HYlo. lia.
    - lia.
    - rewrite H52g. replace (j + 1 - 53 + bias) with (j - 52 + bias) by lia.
      rewrite <- Eg. replace ((N - 1) * g) with (N * g - g) by ring. rewrite <- EN.
      clear - HYlo Hg. lia.
    - replace (j + 1 - 53 + bias) with (j - 52 + bias) by lia.
      rewrite <- Eg. replace ((N - 1) * g) with (N * g - g) by ring. rewrite <- EN.
      clear - HX HYlo Hg. lia. }
  replace (j + 1 - 53 + bias) with (j - 52 + bias) in Hup by lia.
  rewrite <- Eg in Hup. replace ((N - 1) * g) with (N * g - g) in Hup by ring.
  rewrite <- EN in Hup.
  assert (Hnn : 0 <= scaled a).
  { apply (rounds_nonneg _ _ _ Hrounds). pose proof (pow2_pos (mag - 1 + bias)). lia. }
  destruct Hrounds as (Hfin & _). clear Hmag HX X mag EN N.
  destruct a as [s | s | | [|] ma ea]; cbn [finite_from scaled cond_Zopp] in *;
    try contradiction; [apply Hzero |].
  clear Hzero.
  destruct (lit min) as [sb | sb | | [|] mb eb] eqn:Elit;
    cbn [holds_int] in Hbase; try contradiction.
  - (* min = 0 *)
    destruct Hbase as [Hmin0 _]. unfold add, SFadd.
    apply floor_below; [exact Hfin | discriminate | lia | | ]; cbn [scaled cond_Zopp].
    + rewrite Hmin0. lia.
    + rewrite EH. clear - Hup Hg HM. lia.
  - destruct (holds_int_exp min mb eb Hbase ltac:(lia)) as [Hmin0 Heb].
    destruct Hbase as [_ Hb]. rewrite EM in Hb.
    pose proof (pow2_pos (ea + bias) ltac:(lia)) as Hwa.
    assert (Hea : ea < 53).
    { assert (Hlt : 2 ^ (ea + bias) < 2 ^ (j + 1 + bias)).
      { rewrite H53g.
        assert (2 ^ (ea + bias) <= Zpos ma * 2 ^ (ea + bias)).
        { replace (2 ^ (ea + bias)) with (1 * 2 ^ (ea + bias)) at 1 by ring.
          apply Z.mul_le_mono_nonneg_r; lia. }
        clear - H Hup HYM HM Hg. lia. }
      apply Z.pow_lt_mono_r_iff in Hlt; lia. }
    assert (Hsum : Zpos ma * 2 ^ (ea + bias) + Zpos mb * 2 ^ (eb + bias) <= Y + M - g)
      by (clear - Hup Hb; lia).
    assert (H1000 : 2 ^ (j + 1 + bias) < 2 ^ (1000 + bias)) by (apply Z.pow_lt_mono_r; lia).
    destruct (add_rounds ma mb ea eb ltac:(lia) ltac:(lia)) as (mag & Hrounds & Hmag).
    { rewrite H53g in H1000. clear - H1000 Hsum HYM Hg. lia. }
    set (R := add (S754_finite false ma ea) (S754_finite false mb eb)) in *.
    assert (HupR : scaled R <= (K - 1) * 2 ^ (j - 52 + bias)).
    { apply (rounds_upper _ mag (j + 1) _ (j - 52) _ Hrounds (proj1 Hmag)).
      - rewrite H53g. clear - Hsum HYM Hg. lia.
      - lia.
      - lia.
      - rewrite <- Eg. replace ((K - 1) * g) with (K * g - g) by ring. rewrite <- EK.
        exact Hsum. }
    rewrite <- Eg in HupR. replace ((K - 1) * g) with (K * g - g) in HupR by ring.
    rewrite <- EK in HupR.
    assert (HloR : min * 2 ^ (0 + bias) <= scaled R).
    { apply (rounds_lower _ mag (j + 1) min 0 _ Hrounds (proj1 Hmag)).
      - rewrite H53g. clear - Hsum HYM Hg. lia.
      - lia.
      - lia.
      - change (0 + bias) with bias. rewrite EM. clear - Hb Hwa. lia. }
    change (0 + bias) with bias in HloR. rewrite EM in HloR.
    destruct Hrounds as (HfinR & _).
    apply floor_below; [exact HfinR | | lia | rewrite EM; exact HloR | ].
    + intros HR. rewrite HR in HloR. cbn [scaled] in HloR.
      assert (0 < M); [ | lia].
      rewrite <- EM. apply Z.mul_pos_pos; [lia | apply pow2_pos; lia].
    + rewrite EH. clear - HupR Hg. lia.
Qed.

(** *** Rounding up, and the bounds that overshoot *)

(** Rounding to nearest even after a shift by [n] goes up when at least half
    was shifted out of an odd quotient. *)
Lemma round_shifted_up (P n : Z) :
  0 <= P -> 0 < n -> Z.odd (P / 2 ^ n) = true -> 2 ^ n <= 2 * (P mod 2 ^ n) ->
  round_nearest_even (shr_m (shifted P n)) (loc_of_shr_record (shifted P n))
  = P / 2 ^ n + 1.
Proof.
  intros HP Hn Hodd Hhalf. unfold shifted. cbn [shr_m].
  replace (0 <? n) with true by (symmetry; apply Z.ltb_lt; lia). cbn [andb].
  pose proof (mod_pow2_step P (n - 1) ltac:(lia)) as Hstep.
  replace (n - 1 + 1) with n in Hstep by lia.
  assert (Hpow : 2 ^ n = 2 * 2 ^ (n - 1)).
  { replace n with (Z.succ (n - 1)) at 1 by lia. apply Z.pow_succ_r. lia. }
  pose proof (pow2_pos (n - 1) ltac:(lia)) as Hh.
  pose proof (Z.mod_pos_bound P (2 ^ (n - 1)) Hh) as Hlo.
  rewrite Zmod_odd in Hstep.
  assert (Heven : Z.even (P / 2 ^ n) = false) by (rewrite <- Z.negb_odd, Hodd; reflexivity).
  destruct (Z.odd (P / 2 ^ (n - 1))); [ | lia].
  destruct (Z.eqb_spec (P mod 2 ^ (n - 1)) 0) as [E | E];
    cbn [negb loc_of_shr_record round_nearest_even].
  - rewrite Heven. reflexivity.
  - reflexivity.
Qed.

(** [binary_round_aux] on such an input returns the successor of the
    quotient, on the grid [2 ^ fe]. *)
Lemma round_aux_up (P : positive) (ex : Z) :
  - bias <= ex <= 100 -> Zpos (digits2_pos P) + ex <= 1000 ->
  let fe := fexp prec emax (Zpos (digits2_pos P) + ex) in
  ex < fe -> Z.odd (Zpos P / 2 ^ (fe - ex)) = true ->
  2 ^ (fe - ex) <= 2 * (Zpos P mod 2 ^ (fe - ex)) ->
  scaled (binary_round_aux prec emax false (Zpos P) ex loc_Exact)
  = (Zpos P / 2 ^ (fe - ex) + 1) * 2 ^ (fe + bias).
Proof.
  intros Hex Hmag fe Hn Hodd Hhalf.
  set (R := binary_round_aux prec emax false (Zpos P) ex loc_Exact).
  assert (HR : R = binary_round_aux prec emax false (Zpos P) ex loc_Exact) by reflexivity.
  clearbody R. unfold binary_round_aux in HR.
  unfold shr_fexp at 1 in HR. cbn [shr_record_of_loc Zdigits2] in HR. fold fe in HR.
  rewrite shr_exact in HR by lia.
  assert (Hfe : fe = Z.max (Zpos (digits2_pos P) + ex - 53) (-1074)) by reflexivity.
  replace (0 <? fe - ex) with true in HR by (symmetry; apply Z.ltb_lt; lia).
  rewrite (round_shifted_up (Zpos P) (fe - ex) ltac:(lia) ltac:(lia) Hodd Hhalf) in HR.
  assert (Hq : 0 <= Zpos P / 2 ^ (fe - ex) < 2 ^ 53).
  { pose proof (pow2_pos (fe - ex) ltac:(lia)) as Hp.
    split; [apply Z.div_pos; lia |].
    apply Z.div_lt_upper_bound; [lia |].
    pose proof (digits2_pos_bounds P) as [_ Hhi].
    assert (2 ^ Zpos (digits2_pos P) <= 2 ^ (fe - ex + 53)) as Hle
      by (apply Z.pow_le_mono_r; lia).
    rewrite pow2_split in Hle by lia. lia. }
  set (m2 := Zpos P / 2 ^ (fe - ex) + 1) in *.
  destruct (shr_fexp_carry m2 (ex + (fe - ex)) ltac:(lia) ltac:(lia))
    as (m3 & e3 & Hshr & Hval & He3 & Hm3).
  rewrite Hshr in HR. clear Hshr.
  replace (ex + (fe - ex)) with fe in * by lia.
  cbn [shr_m] in HR.
  destruct m3 as [| m | m]; [ | | lia].
  - subst R. cbn [scaled]. lia.
  - replace (e3 <=? emax - prec) with true in HR
      by (symmetry; apply Z.leb_le; unfold emax, prec; lia).
    subst R. cbn [scaled cond_Zopp]. exact Hval.
Qed.

(** [binary_round] reaches a number [U] with an even mantissa on the grid of
    the value as soon as the value is at least half a step below [U]. *)
Lemma round_up (S : positive) (ez mu : Z) :
  - bias <= ez <= 100 -> Zpos (digits2_pos S) + ez <= 1000 ->
  let fe := fexp prec emax (Zpos (digits2_pos S) + ez) in
  Z.even mu = true ->
  2 * (mu * 2 ^ (fe + bias)) <= 2 * (Zpos S * 2 ^ (ez + bias)) + 2 ^ (fe + bias) ->
  mu * 2 ^ (fe + bias) <= scaled (binary_round prec emax false S ez).
Proof.
  intros Hez Hmag fe Heven Hhalf.
  assert (Hbias : bias = 1200) by reflexivity.
  assert (Hfe : -1074 <= fe) by (unfold fe; rewrite fexp_eq; lia).
  pose proof (pow2_pos (fe + bias) ltac:(lia)) as Hg.
  destruct (Z.le_gt_cases (mu * 2 ^ (fe + bias)) (Zpos S * 2 ^ (ez + bias))) as [Hle | Hgt].
  { pose proof (round_rounds S ez Hez Hmag) as (_ & _ & Hge).
    apply Hge; [fold fe; lia | exact Hle]. }
  destruct (Z.le_gt_cases fe ez) as [Hexact | Hshift].
  - (* the value is on the grid: it cannot lie strictly within half a step *)
    exfalso.
    assert (Hsplit : 2 ^ (ez + bias) = 2 ^ (ez - fe) * 2 ^ (fe + bias)).
    { rewrite <- pow2_split by lia. f_equal. lia. }
    rewrite Hsplit, Z.mul_assoc in Hgt, Hhalf.
    set (g := 2 ^ (fe + bias)) in *. set (k := Zpos S * 2 ^ (ez - fe)) in *.
    assert (k < mu) by (apply (Zmult_lt_reg_r _ _ g); lia).
    assert ((k + 1) * g <= mu * g) by (apply Z.mul_le_mono_nonneg_r; lia).
    lia.
  - unfold binary_round, shl_align. fold fe.
    destruct (fe - ez) as [| d | d] eqn:E; try lia.
    assert (Hsplit : 2 ^ (fe + bias) = 2 ^ (fe - ez) * 2 ^ (ez + bias)).
    { rewrite <- pow2_split by lia. f_equal. lia. }
    pose proof (pow2_pos (ez + bias) ltac:(lia)) as Hw.
    pose proof (pow2_pos (fe - ez) ltac:(lia)) as HN.
    assert (HN2 : 2 ^ (fe - ez) = 2 * 2 ^ (fe - ez - 1)).
    { replace (fe - ez) with (Z.succ (fe - ez - 1)) at 1 by lia. apply Z.pow_succ_r. lia. }
    pose proof (pow2_pos (fe - ez - 1) ltac:(lia)) as Hh.
    rewrite Hsplit in Hgt, Hhalf.
    set (w := 2 ^ (ez + bias)) in *. set (N := 2 ^ (fe - ez)) in *.
    set (h := 2 ^ (fe - ez - 1)) in *.
    assert (Hlt : Zpos S < mu * N).
    { apply (Zmult_lt_reg_r _ _ w); [lia |]. rewrite <- Z.mul_assoc. exact Hgt. }
    assert (Hge : 2 * (mu * N) <= 2 * Zpos S + N).
    { apply (Zmult_le_reg_r _ _ w); [lia |].
      replace (2 * (mu * N) * w) with (2 * (mu * (N * w))) by ring.
      replace ((2 * Zpos S + N) * w) with (2 * (Zpos S * w) + N * w) by ring.
      exact Hhalf. }
    assert (Hdm : Zpos S = N * (mu - 1) + (Zpos S - N * (mu - 1))) by ring.
    assert (Hrem : 0 <= Zpos S - N * (mu - 1) < N) by lia.
    assert (Hq : Zpos S / N = mu - 1).
    { symmetry. apply (Z.div_unique _ _ _ (Zpos S - N * (mu - 1))); [lia | exact Hdm]. }
    assert (Hr : Zpos S mod N = Zpos S - N * (mu - 1)).
    { symmetry. apply (Z.mod_unique _ _ (mu - 1)); [lia | exact Hdm]. }
    pose proof (round_aux_up S ez Hez Hmag) as Hup. cbv zeta in Hup. fold fe in Hup.
    unfold N in Hq, Hr. rewrite E in Hq, Hr, Hup. 
    rewrite Hup.
    + rewrite Hq. replace (mu - 1 + 1) with mu by lia. lia.
    + lia.
    + rewrite Hq. rewrite Z.odd_sub. rewrite <- Z.negb_even, Heven. reflexivity.
    + rewrite Hr. fold N in E. rewrite <- E. fold N. lia.
Qed.

(** So does the sum of two positive numbers. *)
Lemma add_up (ma mb : positive) (ea eb k mu : Z) :
  - bias <= ea <= 100 -> - bias <= eb <= 100 ->
  2 ^ (k - 1 + bias) <= Zpos ma * 2 ^ (ea + bias) + Zpos mb * 2 ^ (eb + bias)
    < 2 ^ (k + bias) ->
  -1021 <= k <= 1000 -> Z.even mu = true ->
  2 * (mu * 2 ^ (k - 53 + bias))
    <= 2 * (Zpos ma * 2 ^ (ea + bias) + Zpos mb * 2 ^ (eb + bias)) + 2 ^ (k - 53 + bias) ->
  mu * 2 ^ (k - 53 + bias)
    <= scaled (add (S754_finite false ma ea) (S754_finite false mb eb)).
Proof.
  intros Hea Heb [HYlo HYhi] Hk Heven Hhalf. unfold add, SFadd. cbn [cond_Zopp].
  assert (Hbias : bias = 1200) by reflexivity.
  set (ez := Z.min ea eb).
  pose proof (shl_align_fst ma ea ez ltac:(lia)) as Ha.
  pose proof (shl_align_fst mb eb ez ltac:(lia)) as Hb.
  set (sa := fst (shl_align ma ea ez)) in *.
  set (sb := fst (shl_align mb eb ez)) in *.
  change (Zpos sa + Zpos sb) with (Zpos (sa + sb)).
  cbn [binary_normalize].
  assert (Hsum : Zpos (sa + sb) * 2 ^ (ez + bias)
                 = Zpos ma * 2 ^ (ea + bias) + Zpos mb * 2 ^ (eb + bias)).
  { rewrite Pos2Z.inj_add, Ha, Hb, Z.mul_add_distr_r, <- !Z.mul_assoc.
    rewrite <- !pow2_split by lia. do 2 f_equal; f_equal; lia. }
  rewrite <- Hsum in *. clear Hsum Ha Hb.
  pose proof (magnitude_bounds (sa + sb) ez ltac:(lia)) as [Hlo Hhi].
  set (Y := Zpos (sa + sb) * 2 ^ (ez + bias)) in *.
  assert (Hmag : Zpos (digits2_pos (sa + sb)) + ez = k).
  { assert (H1 : 2 ^ (Zpos (digits2_pos (sa + sb)) + ez - 1 + bias) < 2 ^ (k + bias)) by lia.
    assert (H2 : 2 ^ (k - 1 + bias) < 2 ^ (Zpos (digits2_pos (sa + sb)) + ez + bias)) by lia.
    assert (Zpos (digits2_pos (sa + sb)) + ez - 1 + bias < k + bias)
      by (apply (Z.pow_lt_mono_r_iff 2); lia).
    assert (k - 1 + bias < Zpos (digits2_pos (sa + sb)) + ez + bias)
      by (apply (Z.pow_lt_mono_r_iff 2); lia).
    lia. }
  pose proof (round_up (sa + sb) ez mu ltac:(lia) ltac:(lia) Heven) as Hup.
  cbv zeta in Hup. rewrite Hmag, fexp_eq in Hup.
  replace (Z.max (k - 53) (-1074)) with (k - 53) in Hup by lia.
  apply Hup. exact Hhalf.
Qed.

(** The numbers around [2 ^ i] as multiples of [h], half the step of the
    binary64 grid just below [2 ^ i]. *)
Lemma overshoot_grid (i n H : Z) :
  0 <= i < 52 -> 1 <= n <= 2 ^ i -> 2 ^ i < H ->
  exists h,
    0 < h /\ h = 2 ^ (i - 53 + bias)
    /\ 2 ^ (i + bias) = 2 ^ 53 * h
    /\ 2 * h <= 2 ^ bias
    /\ 2 * h <= n * 2 ^ bias <= 2 ^ 53 * h
    /\ 2 ^ 53 * h + 2 ^ bias <= H * 2 ^ bias
    /\ (exists N, n * 2 ^ bias = N * h).
Proof.
  intros Hi Hn HH.
  assert (Hbias : bias = 1200) by reflexivity.
  set (h := 2 ^ (i - 53 + bias)). set (q := 2 ^ (53 - i)).
  assert (Hh : 0 < h) by (apply pow2_pos; lia).
  assert (Hq2 : 2 <= q).
  { unfold q. change 2 with (2 ^ 1) at 1. apply Z.pow_le_mono_r; lia. }
  assert (Hone : 2 ^ bias = q * h).
  { unfold q, h. rewrite <- pow2_split by lia. f_equal. lia. }
  assert (Hiq : 2 ^ i * q = 2 ^ 53).
  { unfold q. rewrite <- pow2_split by lia. f_equal. lia. }
  pose proof (pow2_pos i ltac:(lia)) as HP.
  set (P := 2 ^ i) in *.
  exists h. split; [exact Hh |]. split; [reflexivity |].
  split; [unfold h; rewrite <- pow2_split by lia; f_equal; lia |].
  rewrite Hone.
  split; [apply Z.mul_le_mono_nonneg_r; lia |].
  split; [split | split].
  - apply (Z.le_trans _ (q * h)); [apply Z.mul_le_mono_nonneg_r; lia |].
    replace (q * h) with (1 * (q * h)) at 1 by ring.
    apply Z.mul_le_mono_nonneg_r; [ | lia].
    apply Z.mul_nonneg_nonneg; lia.
  - rewrite <- Hiq, Z.mul_assoc.
    apply Z.mul_le_mono_nonneg_r; [lia |].
    apply Z.mul_le_mono_nonneg_r; lia.
  - rewrite <- Hiq.
    replace (P * q * h + q * h) with ((P + 1) * (q * h)) by ring.
    apply Z.mul_le_mono_nonneg_r; [ | lia].
    apply Z.mul_nonneg_nonneg; lia.
  - exists (n * q). ring.
Qed.

(** When a power of two lies from [max - min + 1] to [max], the greatest
    draw makes [randomIntFromInterval(min, max)] return [max + 1]. *)
Lemma randomInt_overshoot (min max i : Z) :
  0 <= min <= max -> max < 2 ^ 52 -> 0 <= i ->
  max - min + 1 <= 2 ^ i -> 2 ^ i <= max ->
  randomInt_of (lit min) (lit max) last_draw = lit (max + 1).
Proof.
  intros Hmin Hmax Hi Hlow Hhigh. unfold randomInt_of, last_draw.
  assert (Hbias : bias = 1200) by reflexivity.
  assert (Hi52 : i < 52).
  { assert (Hlt : 2 ^ i < 2 ^ 52) by lia.
    apply Z.pow_lt_mono_r_iff in Hlt; lia. }
  pose proof (lit_holds min ltac:(lia)) as Hbase.
  assert (Hspan : holds_int (max - min + 1) (add (sub (lit max) (lit min)) (lit 1))).
  { apply add_holds; [ | apply lit_holds; lia | lia].
    apply sub_holds; [apply lit_holds; lia | exact Hbase | lia]. }
  assert (Hmin1 : 1 <= min) by lia.
  destruct (overshoot_grid i (max - min + 1) (max + 1) ltac:(lia) ltac:(lia) ltac:(lia))
    as (h & Hh & Eh & Hih & HhB & [Hn2 HnP] & HHP & (N & EN)).
  pose proof (pow2_pos bias ltac:(lia)) as HB.
  assert (H53 : 2 ^ (53 + bias) = 2 ^ 53 * 2 ^ bias) by (apply pow2_split; lia).
  assert (EH : (max + 1) * 2 ^ bias = (max - min + 1) * 2 ^ bias + min * 2 ^ bias) by ring.
  assert (HH52 : (max + 1) * 2 ^ bias <= 2 ^ 52 * 2 ^ bias)
    by (apply Z.mul_le_mono_nonneg_r; lia).
  assert (HmB : 2 ^ bias <= min * 2 ^ bias).
  { replace (2 ^ bias) with (1 * 2 ^ bias) at 1 by ring.
    apply Z.mul_le_mono_nonneg_r; lia. }
  destruct (add (sub (lit max) (lit min)) (lit 1)) as [sc | sc | | [|] mc ec] eqn:Espan;
    cbn [holds_int] in Hspan; try contradiction; [lia |].
  destruct (holds_int_exp _ mc ec Hspan ltac:(lia)) as [_ Hec].
  destruct Hspan as [_ Hc].
  destruct (lit min) as [sb | sb | | [|] mb eb] eqn:Elit;
    cbn [holds_int] in Hbase; try contradiction; [lia |].
  destruct (holds_int_exp min mb eb Hbase ltac:(lia)) as [_ Heb].
  destruct Hbase as [_ Hb].
  clear Hlow Hhigh Hmax Hmin Elit Espan.
  set (B := 2 ^ bias) in *. set (Yn := (max - min + 1) * B) in *.
  set (Ym := min * B) in *. set (YH := (max + 1) * B) in *.
  (* the product *)
  assert (Hw : 2 ^ (ec + bias) = 2 ^ 53 * 2 ^ (-53 + ec + bias)).
  { rewrite <- pow2_split by lia. f_equal. lia. }
  set (X := Zpos (2 ^ 53 - 1) * Zpos mc * 2 ^ (-53 + ec + bias)).
  assert (HX : 2 ^ 53 * X = (2 ^ 53 - 1) * Yn).
  { unfold X. rewrite <- Hc, Hw.
    change (Zpos (2 ^ 53 - 1)) with (2 ^ 53 - 1). ring. }
  clear Hw Hc.
  destruct (mul_rounds (2 ^ 53 - 1) mc (-53) ec ltac:(lia)) as (mag & Hrounds & Hmag).
  { fold X. apply (Z.lt_trans _ (2 ^ (53 + bias))); [ | apply Z.pow_lt_mono_r; lia].
    rewrite H53. clear - HX HnP HhB Hh. lia. }
  fold X in Hrounds, Hmag.
  set (a := mul (S754_finite false (2 ^ 53 - 1) (-53)) (S754_finite false mc ec)) in *.
  assert (Hlo_a : (N - 1) * 2 ^ (i - 53 + bias) <= scaled a).
  { apply (rounds_lower X mag i _ (i - 53) _ Hrounds (proj1 Hmag)).
    - rewrite Hih. clear - HX HnP Hn2 Hh. lia.
    - lia.
    - lia.
    - rewrite <- Eh. replace ((N - 1) * h) with (N * h - h) by ring. rewrite <- EN.
      clear - HX HnP Hh. lia. }
  rewrite <- Eh in Hlo_a. replace ((N - 1) * h) with (N * h - h) in Hlo_a by ring.
  rewrite <- EN in Hlo_a.
  assert (Hup_a : scaled a <= (max - min + 1) * 2 ^ (0 + bias)).
  { apply (rounds_upper X mag 53 _ 0 _ Hrounds (proj1 Hmag)); [ | lia | lia | ].
    - rewrite H53. clear - HX HnP HhB Hh. lia.
    - change (0 + bias) with bias. fold B. fold Yn. clear - HX Hn2 Hh. lia. }
  change (0 + bias) with bias in Hup_a. fold B in Hup_a. fold Yn in Hup_a.
  destruct Hrounds as (Hfin & _). clear Hmag HX X mag EN N Hec.
  destruct a as [s | s | | [|] ma ea]; cbn [finite_from scaled cond_Zopp] in *;
    try contradiction; [clear - Hlo_a Hn2 Hh; lia |].
  pose proof (pow2_pos (ea + bias) ltac:(lia)) as Hwa.
  assert (Hea : ea < 53).
  { assert (Hlt : 2 ^ (ea + bias) < 2 ^ (53 + bias)).
    { rewrite H53.
      assert (2 ^ (ea + bias) <= Zpos ma * 2 ^ (ea + bias)).
      { replace (2 ^ (ea + bias)) with (1 * 2 ^ (ea + bias)) at 1 by ring.
        apply Z.mul_le_mono_nonneg_r; lia. }
      clear - H Hup_a EH HH52 HmB HB. lia. }
    apply Z.pow_lt_mono_r_iff in Hlt; lia. }
  assert (H1000 : 2 ^ (53 + bias) < 2 ^ (1000 + bias)) by (apply Z.pow_lt_mono_r; lia).
  destruct (add_rounds ma mb ea eb ltac:(lia) ltac:(lia)) as (mag & Hrounds & Hmag).
  { rewrite H53 in H1000. clear - H1000 Hup_a Hb EH HH52 HB. lia. }
  set (R := add (S754_finite false ma ea) (S754_finite false mb eb)) in *.
  assert (HupR : scaled R <= (max + 1) * 2 ^ (0 + bias)).
  { apply (rounds_upper _ mag 53 _ 0 _ Hrounds (proj1 Hmag)).
    - rewrite H53. clear - Hup_a Hb EH HH52 HB. lia.
    - lia.
    - lia.
    - change (0 + bias) with bias. fold B. fold YH. clear - Hup_a Hb EH. lia. }
  change (0 + bias) with bias in HupR. fold B in HupR. fold YH in HupR.
  (* the magnitude of the sum is above [i] and at most 53 *)
  assert (Hmag_lo : i < mag).
  { assert (Hlt : 2 ^ (i + bias) < 2 ^ (mag + bias)).
    { rewrite Hih. clear - Hmag Hlo_a Hb EH HHP HhB Hh. lia. }
    destruct (Z.lt_ge_cases (mag + bias) 0) as [Hneg | Hpos].
    - rewrite (Z.pow_neg_r 2 (mag + bias) Hneg) in Hlt.
      pose proof (pow2_pos (i + bias) ltac:(lia)). lia.
    - apply Z.pow_lt_mono_r_iff in Hlt; lia. }
  assert (Hmag_hi : mag <= 53).
  { apply (magnitude_le _ _ _ (proj1 Hmag)); [ | lia].
    rewrite H53. clear - Hup_a Hb EH HH52 HB. lia. }
  assert (HloR : YH <= scaled R).
  { destruct (Z.eq_dec mag 53) as [-> | Hne].
    - (* the sum is 2^52 itself *)
      destruct Hrounds as (_ & _ & Hge).
      assert (E52 : 2 ^ (53 - 1 + bias) = 2 ^ 52 * B) by (apply pow2_split; lia).
      rewrite E52 in Hmag.
      assert (EY : YH = 2 ^ 52 * 2 ^ (0 + bias)).
      { change (0 + bias) with bias. fold B. clear - Hmag Hup_a Hb EH HH52. lia. }
      rewrite EY. apply Hge; [rewrite fexp_eq; lia |].
      rewrite <- EY. clear - Hmag Hup_a Hb EH HH52. lia.
    - set (t := 2 ^ (53 - mag)).
      assert (Eg : B = t * 2 ^ (mag - 53 + bias)).
      { unfold B, t. rewrite <- pow2_split by lia. f_equal. lia. }
      assert (Egh : 2 ^ (mag - 53 + bias) = 2 ^ (mag - i) * h).
      { rewrite Eh. rewrite <- pow2_split by lia. f_equal. lia. }
      assert (Hgh : 2 * h <= 2 ^ (mag - 53 + bias)).
      { rewrite Egh. apply Z.mul_le_mono_nonneg_r; [lia |].
        change 2 with (2 ^ 1) at 1. apply Z.pow_le_mono_r; lia. }
      assert (EU : YH = (max + 1) * t * 2 ^ (mag - 53 + bias)).
      { unfold YH. rewrite <- Z.mul_assoc, <- Eg. reflexivity. }
      rewrite EU.
      apply (add_up ma mb ea eb mag); [lia | lia | exact Hmag | lia | | ].
      + rewrite Z.even_mul. apply orb_true_iff. right.
        unfold t. replace (53 - mag) with (Z.succ (53 - mag - 1)) by lia.
        rewrite Z.pow_succ_r by lia. rewrite Z.even_mul. reflexivity.
      + rewrite <- EU. clear - Hlo_a Hb EH Hgh. lia. }
  destruct Hrounds as (HfinR & _).
  assert (Hfloor : int_between (max + 1) (max + 1) (Math_floor R)).
  { apply floor_below; [exact HfinR | | lia | exact HloR | ].
    - intros HR. rewrite HR in HloR. cbn [scaled] in HloR.
      clear - HloR HHP HB Hh. lia.
    - fold B. replace ((max + 1 + 1) * B) with (YH + B) by (unfold YH; ring).
      clear - HupR HB. lia. }
  destruct Hfloor as (k & Hk & ->). f_equal. lia.
Qed.

(** A number holds one integer only. *)
Lemma holds_int_inj (a b : Z) (x : number) : holds_int a x -> holds_int b x -> a = b.
Proof.
  destruct x as [s | s | | [|] m e]; cbn [holds_int]; try tauto.
  - intros [-> _] [-> _]. reflexivity.
  - intros [_ Ha] [_ Hb]. rewrite Ha in Hb.
    apply Z.mul_reg_r in Hb; [exact Hb |].
    pose proof (pow2_pos bias ltac:(unfold bias; lia)). lia.
Qed.

Lemma lit_inj (a b : Z) : 0 <= a < 2 ^ 53 -> 0 <= b < 2 ^ 53 -> lit a = lit b -> a = b.
Proof.
  intros Ha Hb E. apply (holds_int_inj a b (lit a)); [apply lit_holds, Ha |].
  rewrite E. apply lit_holds, Hb.
Qed.

(** Either [max - min + 1] and [max + 1] lie in the same interval
    [(2^j, 2^(j+1)]], or a power of two lies from [max - min + 1] to [max]. *)
Lemma binade_cases (min max : Z) :
  0 <= min <= max -> 1 <= max ->
  (exists j, 0 <= j /\ 2 ^ j < max - min + 1 /\ max + 1 <= 2 ^ (j + 1))
  \/ (exists i, 0 <= i /\ max - min + 1 <= 2 ^ i <= max).
Proof.
  intros Hmin Hmax.
  destruct (Z.eq_dec min max) as [E | E].
  - right. exists 0. cbn. lia.
  - pose proof (Z.log2_spec (max - min) ltac:(lia)) as [Hlo Hhi].
    pose proof (Z.log2_nonneg (max - min)) as Hj.
    set (j := Z.log2 (max - min)) in *.
    replace (Z.succ j) with (j + 1) in Hhi by lia.
    destruct (Z.le_gt_cases (max + 1) (2 ^ (j + 1))) as [Hin | Hout].
    + left. exists j. lia.
    + right. exists (j + 1). lia.
Qed.

(** *** The draws whose weight is 17 *)

(** Up to [1 - 7 * 2^-53] the weight draw stays within [14, 16]. *)
Lemma randomInt_14_16_tight (r : number) :
  unit_interval r = true ->
  scaled r <= (2 ^ 53 - 7) * 2 ^ (-53 + bias) ->
  int_between 14 16 (randomInt_of (lit 14) (lit 16) r).
Proof.
  intros Hr Hbelow. unfold randomInt_of. rewrite span_14_16, lit_14.
  assert (Hbelow2 : 2 * scaled r <= (2 ^ 53 - 7) * 2 ^ (-52 + bias)).
  { replace (-52 + bias) with (1 + (-53 + bias)) by lia.
    rewrite pow2_split by (unfold bias; lia). change (2 ^ 1) with 2. lia. }
  clear Hbelow.
  destruct (mul_unit r 6755399441055744 (-51) Hr ltac:(lia) ltac:(lia))
    as [(s & _ & ->) | (X & mag & Hrounds & Hmag & HX & Hprod)].
  - apply (int_between_weaken 14 14); [lia | lia |].
    apply (floor_add_range _ _ _ 0 (14 * 2 ^ 49) 4); cbn [finite_from scaled];
      first [exact I | bias_lia].
  - assert (Hup : scaled (mul r (S754_finite false 6755399441055744 (-51)))
                  <= (3 * 2 ^ 51 - 5) * 2 ^ (2 - 53 + bias)).
    { assert (HX3 : X = 3 * scaled r).
      { clear - Hprod. use_pow2_table. nia. }
      apply (rounds_near X mag 2 _ _ Hrounds Hmag); bias_lia. }
    assert (Hnn : 0 <= scaled (mul r (S754_finite false 6755399441055744 (-51)))).
    { apply (rounds_nonneg _ _ _ Hrounds).
      pose proof (pow2_pos (mag - 1 + bias)). lia. }
    destruct Hrounds as (Hfin & _).
    apply (floor_add_range _ _ _ ((3 * 2 ^ 51 - 5) * 2 ^ (2 - 53 + bias)) (17 * 2 ^ 48 - 1) 5);
      first [exact Hfin | bias_lia].
Qed.

(** A draw against [first_17]: at least it, the draw is one of the six
    numbers from [1 - 6 * 2^-53] to [1 - 2^-53]; below it, the draw is at most
    [1 - 7 * 2^-53]. *)
Lemma le_first_17 (r : number) :
  unit_interval r = true ->
  if le first_17 r
  then exists m, r = S754_finite false m (-53) /\ 2 ^ 53 - 6 <= Zpos m < 2 ^ 53
  else scaled r <= (2 ^ 53 - 7) * 2 ^ (-53 + bias).
Proof.
  intros Hr. unfold first_17, le.
  remember (2 ^ 53 - 6)%positive as c17 eqn:Hc17.
  assert (H17 : Zpos c17 = 2 ^ 53 - 6) by (subst c17; reflexivity).
  clear Hc17.
  assert (Hbias : bias = 1200) by reflexivity.
  pose proof (pow2_pos (-53 + bias) ltac:(lia)) as Hg.
  destruct (unit_interval_inv r Hr) as [[s ->] | (m & e & -> & He & Hm)].
  - cbn [SFleb SFcompare scaled]. lia.
  - unfold SFleb, SFcompare. cbn [scaled cond_Zopp].
    destruct (Z.compare_spec (-53) e) as [E | E | E].
    + subst e.
      destruct (PosDef.Pos.compare_cont Eq c17 m) eqn:Ecmp.
      * apply Pos.compare_eq in Ecmp. subst m. exists c17. split; [reflexivity | lia].
      * assert ((c17 < m)%positive) by (apply Pos.compare_lt_iff; exact Ecmp).
        exists m. split; [reflexivity | lia].
      * assert ((m < c17)%positive) by (apply Pos.compare_gt_iff; exact Ecmp).
        apply Z.mul_le_mono_nonneg_r; lia.
    + lia.
    + assert (Hle : 2 ^ (e + bias) <= 2 ^ (-54 + bias)) by (apply Z.pow_le_mono_r; lia).
      assert (Hsplit : 2 ^ (-53 + bias) = 2 * 2 ^ (-54 + bias)).
      { replace (-53 + bias) with (1 + (-54 + bias)) by lia.
        rewrite pow2_split by lia. reflexivity. }
      pose proof (pow2_pos (e + bias) ltac:(lia)) as Hw.
      rewrite Hsplit. clear Hsplit Hg.
      set (w := 2 ^ (e + bias)) in *. set (v := 2 ^ (-54 + bias)) in *.
      assert (Zpos m * w <= (2 ^ 53 - 1) * v); [ | lia].
      apply Z.mul_le_mono_nonneg; lia.
Qed.

Lemma randomInt_17_above (m : positive) :
  2 ^ 53 - 6 <= Zpos m < 2 ^ 53 ->
  randomInt_of (lit 14) (lit 16) (S754_finite false m (-53)) = lit 17.
Proof.
  intros Hm.
  assert (Hcases : m = 9007199254740986%positive \/ m = 9007199254740987%positive
                   \/ m = 9007199254740988%positive \/ m = 9007199254740989%positive
                   \/ m = 9007199254740990%positive \/ m = 9007199254740991%positive)
    by lia.
  destruct Hcases as [-> | [-> | [-> | [-> | [-> | ->]]]]]; vm_compute; reflexivity.
Qed.

End RoundingFacts.

(** ** The generator *)

(** The loop condition [j < bound] on the integers it meets. *)
Lemma lt_lit_small (j k : Z) :
  (0 <= j <= 6)%Z -> (1 <= k <= 6)%Z -> lt (lit j) (lit k) = (j <? k)%Z.
Proof.
  intros Hj Hk.
  assert (Hjs : In j [0; 1; 2; 3; 4; 5; 6]%Z) by (cbn; lia).
  assert (Hks : In k [1; 2; 3; 4; 5; 6]%Z) by (cbn; lia).
  assert (H : forallb (fun j => forallb (fun k => Bool.eqb (lt (lit j) (lit k)) (j <? k)%Z)
                                   [1; 2; 3; 4; 5; 6]%Z) [0; 1; 2; 3; 4; 5; 6]%Z = true)
    by (vm_compute; reflexivity).
  rewrite forallb_forall in H. specialize (H j Hjs).
  rewrite forallb_forall in H. specialize (H k Hks).
  apply Bool.eqb_prop in H. exact H.
Qed.

(** One evaluation of the loop condition, and the iteration it lets in. *)
Lemma events_loop_step (fuel j : nat) (newDay : value) (E : Entropy) (c : Cursor) :
  events_loop (S fuel) j newDay E c
  = if lt (lit (Z.of_nat j)) (randomInt_of (lit 1) (lit 6) (math_random E (random_calls c)))
    then events_loop fuel (S j)
           (push_at "events"
              (VObj [("timestamp_event", VDate (faker_date E (faker_calls c)));
                     ("weight", VNum (randomInt_of (lit 14) (lit 16)
                                        (math_random E (S (random_calls c)))))])
              newDay)
           E {| random_calls := S (S (random_calls c)); faker_calls := S (faker_calls c) |}
    else Some (newDay, {| random_calls := S (random_calls c); faker_calls := faker_calls c |}).
Proof.
  cbn [events_loop]. unfold gbind, randomIntFromInterval, gbind, Math_random, gret.
  destruct (lt _ _); reflexivity.
Qed.

Lemma push_event (evs : list value) (ev day : value) :
  day_with evs day -> day_with (evs ++ [ev]) (push_at "events" ev day).
Proof.
  intros (ts & word & email & firstName & lastName & ->).
  exists ts, word, email, firstName, lastName. reflexivity.
Qed.

Lemma weights_ok_17 (E : Entropy) : entropy_ok E -> weights_ok 17 E.
Proof. intros HE n. apply randomInt_14_17, HE. Qed.

Lemma weights_ok_16 (E : Entropy) : entropy_ok E -> draws_below E -> weights_ok 16 E.
Proof. intros HE Hb n. apply randomInt_14_16_below; [apply HE | apply Hb]. Qed.

(** The inner loop ends within 7 evaluations of its condition, with at most
    6 events, and at least one when it starts from none. *)
Lemma events_loop_total (E : Entropy) (hi : Z) :
  entropy_ok E -> weights_ok hi E ->
  forall (fuel j : nat) (day : value) (evs : list value) (c : Cursor),
    day_with evs day -> length evs = j -> j <= 6 -> 7 <= fuel + j ->
    exists day' evs' c',
      events_loop fuel j day E c = Some (day', c')
      /\ day_with (evs ++ evs') day'
      /\ Forall (event_with 14 hi) evs'
      /\ j <= length (evs ++ evs') <= 6
      /\ (j = 0 -> 1 <= length (evs ++ evs')).
Proof.
  intros HE HW fuel. induction fuel as [| fuel IH]; intros j day evs c Hday Hlen Hj Hfuel.
  - lia.
  - rewrite events_loop_step.
    destruct (randomInt_1_6 _ (HE (random_calls c))) as (k & Hk & ->).
    rewrite lt_lit_small by lia.
    destruct (Z.ltb_spec (Z.of_nat j) k) as [Hlt | Hge].
    + (* one more event, then the condition is drawn again *)
      set (ev := VObj _).
      destruct (IH (S j) (push_at "events" ev day) (evs ++ [ev])
                  {| random_calls := S (S (random_calls c)); faker_calls := S (faker_calls c) |})
        as (day' & evs' & c' & Hrun & Hday' & Hevs' & Hcount & _).
      * apply push_event, Hday.
      * rewrite length_app. cbn. lia.
      * lia.
      * lia.
      * exists day', (ev :: evs'), c'.
        rewrite <- app_assoc in Hday', Hcount. cbn [app] in Hday', Hcount.
        split; [exact Hrun |]. split; [exact Hday' |]. split.
        { constructor; [ | exact Hevs'].
          eexists _, _. split; [reflexivity | apply HW]. }
        rewrite length_app in *. cbn [length] in *. lia.
    + (* the draw is not above [j]: the loop ends *)
      eexists day, [], _.
      rewrite app_nil_r.
      split; [reflexivity |]. split; [exact Hday |]. split; [constructor |]. lia.
Qed.

Lemma make_day_total (E : Entropy) (hi : Z) :
  entropy_ok E -> weights_ok hi E ->
  forall (fuel : nat) (c : Cursor), 7 <= fuel ->
    exists day c', make_day fuel E c = Some (day, c') /\ day_ok 14 hi day.
Proof.
  intros HE HW fuel c Hfuel.
  unfold make_day, gbind, faker_person_firstName, faker_person_lastName,
    faker_date_past, faker_lorem_word, faker_internet_email, faker_call.
  cbn [random_calls faker_calls].
  set (newDay := VObj _). set (c0 := Build_Cursor _ _).
  destruct (events_loop_total E hi HE HW fuel 0 newDay [] c0)
    as (day & evs & c' & Hrun & Hday & Hevs & Hn & Hpos);
    [ | reflexivity | lia | lia | ].
  - eexists _, _, _, _, _. reflexivity.
  - exists day, c'. split; [exact Hrun |].
    exists evs. cbn [app] in *. split; [exact Hday |]. split; [lia | exact Hevs].
Qed.

Lemma days_loop_total (E : Entropy) (hi : Z) :
  entropy_ok E -> weights_ok hi E ->
  forall (fuel : nat), 7 <= fuel ->
  forall (remaining : nat) (acc : list value) (c : Cursor),
    exists days c',
      days_loop fuel remaining acc E c = Some (acc ++ days, c')
      /\ length days = remaining
      /\ Forall (day_ok 14 hi) days.
Proof.
  intros HE HW fuel Hfuel remaining.
  induction remaining as [| remaining IH]; intros acc c.
  - exists [], c. rewrite app_nil_r. repeat split. constructor.
  - cbn [days_loop]. unfold gbind.
    destruct (make_day_total E hi HE HW fuel c Hfuel) as (day & c1 & -> & Hday).
    destruct (IH (acc ++ [day]) c1) as (days & c' & -> & Hlen & Hdays).
    exists (day :: days), c'. rewrite <- app_assoc. cbn [app length].
    split; [reflexivity |]. split; [lia |]. constructor; assumption.
Qed.

Lemma timeSeriesData_bounded (E : Entropy) (hi : Z) (fuel : nat) :
  entropy_ok E -> weights_ok hi E -> 7 <= fuel ->
  exists days c',
    timeSeriesData fuel E start = Some (days, c')
    /\ Z.of_nat (length days) = 5000%Z
    /\ Forall (day_ok 14 hi) days.
Proof.
  intros HE HW Hfuel. unfold timeSeriesData.
  destruct (days_loop_total E hi HE HW fuel Hfuel day_count [] start)
    as (days & c' & Hrun & Hlen & Hdays).
  exists days, c'. cbn [app] in Hrun. split; [exact Hrun |]. split; [ | exact Hdays].
  rewrite Hlen. unfold day_count. rewrite Z2Nat.id; lia.
Qed.

Lemma timeSeriesData_total (E : Entropy) (fuel : nat) :
  entropy_ok E -> 7 <= fuel ->
  exists days c',
    timeSeriesData fuel E start = Some (days, c')
    /\ Z.of_nat (length days) = 5000%Z
    /\ Forall (day_ok 14 17) days.
Proof. intros HE. apply timeSeriesData_bounded; [exact HE | apply weights_ok_17, HE]. Qed.

(** The count of events, from the draws made for the loop condition. *)
Lemma events_loop_count (E : Entropy) (n0 : nat) :
  entropy_ok E ->
  forall (fuel j : nat) (day : value) (evs : list value) (c : Cursor),
    day_with evs day -> length evs = j -> j <= 6 -> 7 <= fuel + j ->
    random_calls c = n0 + 2 * j ->
    (forall i, i < j -> lt (lit (Z.of_nat i)) (bound_at E n0 i) = true) ->
    exists day' c',
      events_loop fuel j day E c = Some (day', c')
      /\ first_stop E n0 (length (events_of day')).
Proof.
  intros HE fuel. induction fuel as [| fuel IH];
    intros j day evs c Hday Hlen Hj Hfuel Hc Hbefore.
  - lia.
  - rewrite events_loop_step.
    assert (Hbound : randomInt_of (lit 1) (lit 6) (math_random E (random_calls c))
                     = bound_at E n0 j) by (unfold bound_at; rewrite Hc; reflexivity).
    rewrite Hbound.
    destruct (lt (lit (Z.of_nat j)) (bound_at E n0 j)) eqn:Hcond.
    + assert (Hj' : S j <= 6).
      { unfold bound_at in Hcond.
        destruct (randomInt_1_6 _ (HE (n0 + 2 * j))) as (k & Hk & Hlit).
        rewrite Hlit, lt_lit_small in Hcond by lia.
        apply Z.ltb_lt in Hcond. lia. }
      set (ev := VObj _).
      apply (IH (S j) (push_at "events" ev day) (evs ++ [ev])).
      * apply push_event, Hday.
      * rewrite length_app. cbn. lia.
      * exact Hj'.
      * lia.
      * cbn [random_calls]. lia.
      * intros i Hi. destruct (Nat.eq_dec i j) as [-> | Hne]; [exact Hcond |].
        apply Hbefore. lia.
    + exists day, {| random_calls := S (random_calls c); faker_calls := faker_calls c |}.
      split; [reflexivity |].
      destruct Hday as (ts & word & email & fn & ln & ->).
      unfold events_of. cbn [get get_prop String.eqb Ascii.eqb Bool.eqb].
      rewrite Hlen. split; assumption.
Qed.

(** The number of events of a day is the first [j] at which the draw made
    for the loop condition gives a bound that is not above [j]. *)
Lemma make_day_count (E : Entropy) (fuel : nat) (c : Cursor) :
  entropy_ok E -> 7 <= fuel ->
  exists day c',
    make_day fuel E c = Some (day, c')
    /\ first_stop E (random_calls c) (length (events_of day)).
Proof.
  intros HE Hfuel.
  unfold make_day, gbind, faker_person_firstName, faker_person_lastName,
    faker_date_past, faker_lorem_word, faker_internet_email, faker_call.
  cbn [random_calls faker_calls].
  set (newDay := VObj _). set (c0 := Build_Cursor _ _).
  apply (events_loop_count E (random_calls c) HE fuel 0 newDay [] c0).
  - eexists _, _, _, _, _. reflexivity.
  - reflexivity.
  - lia.
  - lia.
  - cbn. lia.
  - intros i Hi. lia.
Qed.

Lemma day_ok_events (lo hi : Z) (day : value) :
  day_ok lo hi day -> events_count_ok day /\ weights_within lo hi day.
Proof.
  intros (evs & (ts & word & email & fn & ln & ->) & Hn & Hevs).
  unfold events_count_ok, weights_within, events_of. cbn [get get_prop String.eqb Ascii.eqb Bool.eqb].
  split; [exact Hn |].
  eapply Forall_impl; [exact Hevs |].
  intros ev (ts' & w & -> & Hw). exists w. split; [reflexivity | exact Hw].
Qed.

Lemma day_ok_fields (lo hi : Z) (day : value) :
  day_ok lo hi day -> has_fields written_fields day.
Proof.
  intros (evs & (ts & word & email & fn & ln & ->) & _).
  split; [reflexivity |]. eexists. split; reflexivity.
Qed.

(** Whatever the draws, every day built has between 1 and 6 events, each
    with an integer weight between 14 and 17. *)
Lemma days_within_bounds (E : Entropy) (fuel : nat) :
  entropy_ok E -> 7 <= fuel ->
  exists days c,
    timeSeriesData fuel E start = Some (days, c)
    /\ Forall events_count_ok days
    /\ Forall (weights_within 14 17) days.
Proof.
  intros HE Hfuel.
  destruct (timeSeriesData_total E fuel HE Hfuel) as (days & c & Hrun & _ & Hdays).
  exists days, c. split; [exact Hrun |].
  split; (eapply Forall_impl; [exact Hdays |]); intros day Hday;
    apply (day_ok_events 14 17 day Hday).
Qed.

(** When no draw exceeds [1 - 2^-50], every weight is between 14 and 16. *)
Lemma days_within_spec_below (E : Entropy) (fuel : nat) :
  entropy_ok E -> draws_below E -> 7 <= fuel ->
  exists days c,
    timeSeriesData fuel E start = Some (days, c)
    /\ Forall events_count_ok days
    /\ Forall (weights_within 14 16) days.
Proof.
  intros HE Hb Hfuel.
  destruct (timeSeriesData_bounded E 16 fuel HE (weights_ok_16 E HE Hb) Hfuel)
    as (days & c & Hrun & _ & Hdays).
  exists days, c. split; [exact Hrun |].
  split; (eapply Forall_impl; [exact Hdays |]); intros day Hday;
    apply (day_ok_events 14 16 day Hday).
Qed.

(** Every run of [seedDB] ends, with the trace and the completion that the
    behaviour of the store fixes. *)
Lemma seedDB_run (S : Store) (E : Entropy) (fuel : nat) :
  entropy_ok E -> 7 <= fuel ->
  exists days c c',
    timeSeriesData fuel E start = Some (days, c)
    /\ Z.of_nat (length days) = 5000%Z
    /\ Forall (day_ok 14 17) days
    /\ seedDB S fuel E start = Some (seed_trace S days, seed_completion S, c').
Proof.
  intros HE Hfuel.
  destruct (timeSeriesData_total E fuel HE Hfuel) as (days & c & Hrun & Hlen & Hdays).
  exists days, c.
  unfold seedDB, try_catch_finally, rbind, call, console_log, construct,
    construct_client, seed_trace, seed_completion, closing.
  rewrite Hrun.
  destruct (new_MongoClient S) as [e0 |];
    [ | destruct (client_connect S) as [e |];
        [ | destruct (collection_insertMany S days) as [e |]];
        destruct (client_close S) as [e' |]];
    eexists; repeat split; try assumption; reflexivity.
Qed.

Lemma closing_store_calls (S : Store) : filter is_store_call (closing S) = [Close].
Proof. unfold closing. destruct (client_close S); reflexivity. Qed.

Lemma seed_trace_store_calls (S : Store) (days : list value) :
  filter is_store_call (seed_trace S days)
  = match new_MongoClient S, client_connect S with
    | Some _, _ => []
    | None, Some _ => [Connect; Close]
    | None, None =>
        [Connect; InsertMany "Synthetic_Data_DB" "Synthetic_Data_COL" days; Close]
    end.
Proof.
  unfold seed_trace.
  destruct (new_MongoClient S); [reflexivity |].
  destruct (client_connect S); [ | destruct (collection_insertMany S days)];
    rewrite ?filter_app, closing_store_calls; reflexivity.
Qed.

(** The hypotheses of [days_within_spec_below] hold of the draws that are
    all 1/2. *)
Example days_within_spec_at_half :
  exists days c,
    timeSeriesData 7 (entropy_of (fun _ => dyadic 1 (-1))) start = Some (days, c)
    /\ Forall events_count_ok days
    /\ Forall (weights_within 14 16) days.
Proof.
  apply days_within_spec_below.
  - intros n. reflexivity.
  - intros n. vm_compute. discriminate.
  - lia.
Qed.

(** ** The claims on the generator *)

Lemma plus_zero_ok : entropy_ok (entropy_of (fun _ => plus_zero)).
Proof. intros n. reflexivity. Qed.

(** C1 (as amended).  The generator has no [count]: whatever count is asked
    for, a run builds exactly 5000 days. *)
Theorem C1_generate_builds_5000 (count : Z) (E : Entropy) (fuel : nat) :
  entropy_ok E -> 7 <= fuel ->
  exists days c,
    generate count fuel E start = Some (days, c)
    /\ Z.of_nat (length days) = 5000%Z.
Proof.
  intros HE Hfuel. unfold generate.
  destruct (timeSeriesData_total E fuel HE Hfuel) as (days & c & Hrun & Hlen & _).
  exists days, c. split; assumption.
Qed.

Lemma C1_generate_builds_5000_witness :
  entropy_ok (entropy_of (fun _ => plus_zero)) /\ 7 <= 7
  /\ exists days c,
       generate 5000 7 (entropy_of (fun _ => plus_zero)) start = Some (days, c)
       /\ Z.of_nat (length days) = 5000%Z.
Proof.
  split; [intros n; reflexivity |]. split; [lia |].
  apply (C1_generate_builds_5000 5000 (entropy_of (fun _ => plus_zero)) 7).
  - intros n. reflexivity.
  - lia.
Defined.

(** C1, as stated, fails: asked for one day, the generator builds 5000. *)
Lemma C1_count_is_ignored :
  exists days c,
    generate 1 7 (entropy_of (fun _ => plus_zero)) start = Some (days, c)
    /\ Z.of_nat (length days) <> 1%Z.
Proof.
  destruct (timeSeriesData_total (entropy_of (fun _ => plus_zero)) 7 plus_zero_ok ltac:(lia))
    as (days & c & Hrun & Hlen & _).
  exists days, c. split; [exact Hrun | lia].
Qed.

Lemma lit_inj_14_16 (k : Z) : (14 <= k <= 16)%Z -> lit 17 <> lit k.
Proof.
  intros Hk. assert (Hks : In k [14; 15; 16]%Z) by (cbn; lia).
  cbn in Hks. destruct Hks as [<- | [<- | [<- | []]]]; vm_compute; discriminate.
Qed.

(** C2 (the code departs from it).  With [1 - 2^-52] as the weight draw,
    [Math.floor(r * 3 + 14)] is 17: the day built has an event whose weight
    lies outside [14, 16]. *)
Theorem C2_weight_17_reached :
  entropy_ok (entropy_of draws_17)
  /\ randomInt_of (lit 14) (lit 16) almost_one = lit 17
  /\ exists day c,
       make_day 7 (entropy_of draws_17) start = Some (day, c)
       /\ ~ weights_within 14 16 day.
Proof.
  split; [intros [| [| n]]; reflexivity |].
  split; [vm_compute; reflexivity |].
  eexists _, _. split; [vm_compute; reflexivity |].
  unfold weights_within, events_of. cbn [get get_prop String.eqb Ascii.eqb Bool.eqb].
  intros H. apply Forall_cons in H as [(w & Hw & k & Hk & Hlit) _].
  cbn in Hw. injection Hw as <-.
  apply (lit_inj_14_16 k Hk). rewrite <- Hlit. vm_compute. reflexivity.
Qed.

(** C3 (the code departs from it).  The loop condition draws afresh before
    every iteration: two days whose first draw is the same, and asks for 6
    events, end with 1 event and with 6 events. *)
Theorem C3_count_redrawn_each_iteration :
  entropy_ok (entropy_of draws_short) /\ entropy_ok (entropy_of draws_long)
  /\ draws_short 0 = draws_long 0
  /\ randomInt_of (lit 1) (lit 6) (draws_short 0) = lit 6
  /\ exists day1 c1 day2 c2,
       make_day 7 (entropy_of draws_short) start = Some (day1, c1)
       /\ make_day 7 (entropy_of draws_long) start = Some (day2, c2)
       /\ length (events_of day1) = 1
       /\ length (events_of day2) = 6.
Proof.
  split; [intros [| [| n]]; reflexivity |].
  split.
  { intros n. cbn [entropy_of math_random]. unfold draws_long.
    destruct (Nat.even n); reflexivity. }
  split; [reflexivity |].
  split; [vm_compute; reflexivity |].
  eexists _, _, _, _.
  split; [vm_compute; reflexivity |].
  split; [vm_compute; reflexivity |].
  split; reflexivity.
Qed.

(** C4 (as amended).  Every day the generator builds has exactly the fields
    [timestamp_day], [cat], [owner] (with [email], [firstName], [lastName])
    and [events]. *)
Theorem C4_written_fields (E : Entropy) (fuel : nat) :
  entropy_ok E -> 7 <= fuel ->
  exists days c,
    timeSeriesData fuel E start = Some (days, c)
    /\ Forall (has_fields ["timestamp_day"; "cat"; "owner"; "events"]) days.
Proof.
  intros HE Hfuel.
  destruct (timeSeriesData_total E fuel HE Hfuel) as (days & c & Hrun & _ & Hdays).
  exists days, c. split; [exact Hrun |].
  eapply Forall_impl; [exact Hdays |]. intros day. apply day_ok_fields.
Qed.

Lemma C4_written_fields_witness :
  entropy_ok (entropy_of (fun _ => plus_zero)) /\ 7 <= 7
  /\ exists days c,
       timeSeriesData 7 (entropy_of (fun _ => plus_zero)) start = Some (days, c)
       /\ Forall (has_fields ["timestamp_day"; "cat"; "owner"; "events"]) days.
Proof.
  split; [intros n; reflexivity |]. split; [lia |].
  apply (C4_written_fields (entropy_of (fun _ => plus_zero)) 7).
  - intros n. reflexivity.
  - lia.
Defined.

(** C4, as stated, fails: the day built has no field [category]. *)
Lemma C4_no_category_field :
  exists day c,
    make_day 7 (entropy_of (fun _ => plus_zero)) start = Some (day, c)
    /\ ~ has_fields declared_fields day
    /\ get "category" day = None.
Proof.
  eexists _, _. split; [vm_compute; reflexivity |]. split.
  - intros [Hkeys _]. vm_compute in Hkeys. discriminate Hkeys.
  - reflexivity.
Qed.

(** ** The claims on [seedDB] *)

(** C5.  Once the client is built, whether [connect] and [insertMany]
    complete or throw, the run attempts [close], once, and it is the last
    call made to the store. *)
Theorem C5_close_always_attempted (S : Store) (E : Entropy) (fuel : nat) :
  entropy_ok E -> 7 <= fuel -> new_MongoClient S = None ->
  exists t r c,
    seedDB S fuel E start = Some (t, r, c)
    /\ In Close t
    /\ length (filter is_close t) = 1
    /\ last (filter is_store_call t) = Some Close.
Proof.
  intros HE Hfuel Hnew.
  destruct (seedDB_run S E fuel HE Hfuel) as (days & c & c' & _ & _ & _ & Hrun).
  exists (seed_trace S days), (seed_completion S), c'. split; [exact Hrun |].
  rewrite seed_trace_store_calls. unfold seed_trace, closing. rewrite Hnew.
  destruct (client_connect S); [ | destruct (collection_insertMany S days)];
    destruct (client_close S); cbn; auto 10.
Qed.

Lemma C5_close_always_attempted_witness :
  entropy_ok (entropy_of (fun _ => plus_zero)) /\ 7 <= 7
  /\ new_MongoClient store_down = None
  /\ exists t r c,
       seedDB store_down 7 (entropy_of (fun _ => plus_zero)) start = Some (t, r, c)
       /\ In Close t
       /\ length (filter is_close t) = 1
       /\ last (filter is_store_call t) = Some Close.
Proof.
  split; [intros n; reflexivity |]. split; [lia |]. split; [reflexivity |].
  apply (C5_close_always_attempted store_down (entropy_of (fun _ => plus_zero)) 7).
  - intros n. reflexivity.
  - lia.
  - reflexivity.
Defined.

(** C6.  Building the documents makes no call to the store, and a run that
    connects makes one [insertMany] call, carrying all the documents built;
    a run whose [connect] throws, or whose client cannot be built, makes
    none. *)
Theorem C6_one_bulk_insert (S : Store) (E : Entropy) (fuel : nat) :
  entropy_ok E -> 7 <= fuel ->
  exists days c0 t r c,
    timeSeriesData fuel E start = Some (days, c0)
    /\ Z.of_nat (length days) = 5000%Z
    /\ trace_of (construct (timeSeriesData fuel) E start) = []
    /\ seedDB S fuel E start = Some (t, r, c)
    /\ filter is_store_call t
       = match new_MongoClient S, client_connect S with
         | Some _, _ => []
         | None, Some _ => [Connect; Close]
         | None, None =>
             [Connect; InsertMany "Synthetic_Data_DB" "Synthetic_Data_COL" days; Close]
         end
    /\ (new_MongoClient S = None -> client_connect S = None ->
        filter is_insert t = [InsertMany "Synthetic_Data_DB" "Synthetic_Data_COL" days]).
Proof.
  intros HE Hfuel.
  destruct (seedDB_run S E fuel HE Hfuel) as (days & c & c' & Hgen & Hlen & _ & Hrun).
  exists days, c, (seed_trace S days), (seed_completion S), c'.
  split; [exact Hgen |]. split; [exact Hlen |]. split.
  { unfold construct. rewrite Hgen. reflexivity. }
  split; [exact Hrun |]. split; [apply seed_trace_store_calls |].
  intros Hnew Hconn. unfold seed_trace, closing. rewrite Hnew, Hconn.
  destruct (collection_insertMany S days); destruct (client_close S); reflexivity.
Qed.

Lemma C6_one_bulk_insert_witness :
  entropy_ok (entropy_of (fun _ => plus_zero)) /\ 7 <= 7
  /\ exists days c0 t r c,
       timeSeriesData 7 (entropy_of (fun _ => plus_zero)) start = Some (days, c0)
       /\ Z.of_nat (length days) = 5000%Z
       /\ trace_of (construct (timeSeriesData 7) (entropy_of (fun _ => plus_zero)) start) = []
       /\ seedDB store_up 7 (entropy_of (fun _ => plus_zero)) start = Some (t, r, c)
       /\ filter is_store_call t
          = match new_MongoClient store_up, client_connect store_up with
            | Some _, _ => []
            | None, Some _ => [Connect; Close]
            | None, None =>
                [Connect; InsertMany "Synthetic_Data_DB" "Synthetic_Data_COL" days; Close]
            end
       /\ (new_MongoClient store_up = None -> client_connect store_up = None ->
           filter is_insert t
           = [InsertMany "Synthetic_Data_DB" "Synthetic_Data_COL" days]).
Proof.
  split; [intros n; reflexivity |]. split; [lia |].
  apply (C6_one_bulk_insert store_up (entropy_of (fun _ => plus_zero)) 7).
  - intros n. reflexivity.
  - lia.
Defined.

(** C10 (as amended).  Once the client is built, an error thrown by
    [connect] or by [insertMany] is caught and its stack logged, [close] is
    attempted, and the run completes normally when [close] completes; an
    error thrown by [close] is the completion of the run. *)
Theorem C10_only_close_errors_propagate (S : Store) (E : Entropy) (fuel : nat) :
  entropy_ok E -> 7 <= fuel -> new_MongoClient S = None ->
  exists days c0 t r c,
    timeSeriesData fuel E start = Some (days, c0)
    /\ seedDB S fuel E start = Some (t, r, c)
    /\ In Close t
    /\ (forall e, client_connect S = Some e -> In (ConsoleLog (stack e)) t)
    /\ (forall e, client_connect S = None -> collection_insertMany S days = Some e ->
                  In (ConsoleLog (stack e)) t)
    /\ r = match client_close S with
           | None => Normal tt
           | Some e => Throw e
           end.
Proof.
  intros HE Hfuel Hnew.
  destruct (seedDB_run S E fuel HE Hfuel) as (days & c & c' & Hgen & _ & _ & Hrun).
  exists days, c, (seed_trace S days), (seed_completion S), c'.
  split; [exact Hgen |]. split; [exact Hrun |].
  unfold seed_trace, seed_completion, closing. rewrite Hnew.
  split; [ | split; [ | split]].
  - destruct (client_connect S); [ | destruct (collection_insertMany S days)]; cbn; auto 10.
  - intros e ->. cbn. auto.
  - intros e -> ->. cbn. auto 10.
  - destruct (client_close S); reflexivity.
Qed.

Lemma C10_only_close_errors_propagate_witness :
  entropy_ok (entropy_of (fun _ => plus_zero)) /\ 7 <= 7
  /\ new_MongoClient store_down = None
  /\ exists days c0 t r c,
       timeSeriesData 7 (entropy_of (fun _ => plus_zero)) start = Some (days, c0)
       /\ seedDB store_down 7 (entropy_of (fun _ => plus_zero)) start = Some (t, r, c)
       /\ In Close t
       /\ (forall e, client_connect store_down = Some e -> In (ConsoleLog (stack e)) t)
       /\ (forall e, client_connect store_down = None ->
                     collection_insertMany store_down days = Some e ->
                     In (ConsoleLog (stack e)) t)
       /\ r = match client_close store_down with
              | None => Normal tt
              | Some e => Throw e
              end.
Proof.
  split; [intros n; reflexivity |]. split; [lia |]. split; [reflexivity |].
  apply (C10_only_close_errors_propagate store_down (entropy_of (fun _ => plus_zero)) 7).
  - intros n. reflexivity.
  - lia.
  - reflexivity.
Defined.

(** C10, as stated, fails: [connect] throws and is logged, then [close]
    throws, and the run of [seedDB] ends with that error. *)
Lemma C10_close_error_propagates :
  seedDB store_down 7 (entropy_of (fun _ => plus_zero)) start
  = Some ([Connect; ConsoleLog "connect ECONNREFUSED"; Close],
          Throw (Error "close failed"), start).
Proof. reflexivity. Qed.

(** ** Further properties of [randomIntFromInterval] *)

(** X1.  For integers [0 <= min <= max < 2^52] and a draw in [0, 1),
    [randomIntFromInterval(min, max)] calls [Math.random] once and returns
    an integer from [min] to [max + 1]. *)
Theorem X1_randomInt_range (min max : Z) (E : Entropy) (c : Cursor) :
  (0 <= min <= max)%Z -> (max < 2 ^ 52)%Z ->
  unit_interval (math_random E (random_calls c)) = true ->
  exists x,
    randomIntFromInterval (lit min) (lit max) E c = Some (x, after_draw c)
    /\ int_between min (max + 1) x.
Proof.
  intros Hmin Hmax Hr. eexists. split; [reflexivity |].
  apply randomInt_general; assumption.
Qed.

Lemma X1_randomInt_range_witness :
  (0 <= 14 <= 16)%Z /\ (16 < 2 ^ 52)%Z
  /\ unit_interval (math_random (entropy_of (fun _ => almost_one)) (random_calls start)) = true
  /\ exists x,
       randomIntFromInterval (lit 14) (lit 16) (entropy_of (fun _ => almost_one)) start
       = Some (x, after_draw start)
       /\ int_between 14 (16 + 1) x.
Proof.
  split; [lia |]. split; [reflexivity |]. split; [reflexivity |].
  apply (X1_randomInt_range 14 16 (entropy_of (fun _ => almost_one)) start).
  - lia.
  - reflexivity.
  - reflexivity.
Defined.

(** X2.  For integers [0 <= min <= max] with [1 <= max < 2^52], the result
    of [randomIntFromInterval(min, max)] is an integer from [min] to [max]
    for every draw in [0, 1), as the comment of the function says, if and
    only if no power of two lies from [max - min + 1] to [max]. *)
Theorem X2_randomInt_criterion (min max : Z) :
  (0 <= min <= max)%Z -> (1 <= max < 2 ^ 52)%Z ->
  (forall (E : Entropy) (c : Cursor),
      unit_interval (math_random E (random_calls c)) = true ->
      exists x,
        randomIntFromInterval (lit min) (lit max) E c = Some (x, after_draw c)
        /\ int_between min max x)
  <-> ~ (exists i, (0 <= i /\ max - min + 1 <= 2 ^ i <= max)%Z).
Proof.
  intros Hmin Hmax. split.
  - intros Hall (i & Hi & Hlow & Hhigh).
    destruct (Hall (entropy_of (fun _ => last_draw)) start eq_refl)
      as (x & Hrun & k & Hk & Hx).
    unfold randomIntFromInterval, gbind, Math_random, gret in Hrun.
    cbn [entropy_of math_random] in Hrun.
    rewrite (randomInt_overshoot min max i) in Hrun by lia.
    injection Hrun as <-.
    apply lit_inj in Hx; lia.
  - intros Hno E c Hr. eexists. split; [reflexivity |].
    destruct (binade_cases min max Hmin ltac:(lia)) as [(j & Hj & Hlow & Hhigh) | Hex].
    + apply (randomInt_within min max j); [exact Hmin | exact Hj | exact Hlow | exact Hhigh
                                           | lia | exact Hr].
    + contradiction.
Qed.

Lemma X2_randomInt_criterion_witness :
  (0 <= 1 <= 6)%Z /\ (1 <= 6 < 2 ^ 52)%Z
  /\ ((forall (E : Entropy) (c : Cursor),
          unit_interval (math_random E (random_calls c)) = true ->
          exists x,
            randomIntFromInterval (lit 1) (lit 6) E c = Some (x, after_draw c)
            /\ int_between 1 6 x)
      <-> ~ (exists i, (0 <= i /\ 6 - 1 + 1 <= 2 ^ i <= 6)%Z)).
Proof.
  split; [lia |]. split; [split; [lia | reflexivity] |].
  apply (X2_randomInt_criterion 1 6).
  - lia.
  - split; [lia | reflexivity].
Defined.

(** X3.  When a power of two lies from [max - min + 1] to [max], the draw
    [1 - 2^-53], the greatest number below 1, makes
    [randomIntFromInterval(min, max)] return [max + 1]. *)
Theorem X3_randomInt_overshoot (min max i : Z) (E : Entropy) (c : Cursor) :
  (0 <= min <= max)%Z -> (max < 2 ^ 52)%Z -> (0 <= i)%Z ->
  (max - min + 1 <= 2 ^ i)%Z -> (2 ^ i <= max)%Z ->
  math_random E (random_calls c) = last_draw ->
  unit_interval last_draw = true
  /\ randomIntFromInterval (lit min) (lit max) E c = Some (lit (max + 1), after_draw c).
Proof.
  intros Hmin Hmax Hi Hlow Hhigh Hr. split; [reflexivity |].
  unfold randomIntFromInterval, gbind, Math_random, gret. rewrite Hr.
  rewrite (randomInt_overshoot min max i) by assumption. reflexivity.
Qed.

Lemma X3_randomInt_overshoot_witness :
  (0 <= 14 <= 16)%Z /\ (16 < 2 ^ 52)%Z /\ (0 <= 2)%Z
  /\ (16 - 14 + 1 <= 2 ^ 2)%Z /\ (2 ^ 2 <= 16)%Z
  /\ math_random (entropy_of (fun _ => last_draw)) (random_calls start) = last_draw
  /\ unit_interval last_draw = true
  /\ randomIntFromInterval (lit 14) (lit 16) (entropy_of (fun _ => last_draw)) start
     = Some (lit (16 + 1), after_draw start).
Proof.
  split; [lia |]. split; [reflexivity |]. split; [lia |].
  split; [cbn; lia |]. split; [cbn; lia |]. split; [reflexivity |].
  apply (X3_randomInt_overshoot 14 16 2 (entropy_of (fun _ => last_draw)) start).
  - lia.
  - reflexivity.
  - lia.
  - cbn. lia.
  - cbn. lia.
  - reflexivity.
Defined.

(** X4.  For a draw [r] in [0, 1), [randomIntFromInterval(14, 16)] returns
    17 when [r >= 1 - 6 * 2^-53], and an integer from 14 to 16 otherwise. *)
Theorem X4_weight_17_exactly (E : Entropy) (c : Cursor) :
  unit_interval (math_random E (random_calls c)) = true ->
  exists w,
    randomIntFromInterval (lit 14) (lit 16) E c = Some (w, after_draw c)
    /\ if le first_17 (math_random E (random_calls c))
       then w = lit 17
       else int_between 14 16 w.
Proof.
  intros Hr. eexists. split; [reflexivity |].
  pose proof (le_first_17 _ Hr) as H.
  destruct (le first_17 (math_random E (random_calls c))).
  - destruct H as (m & -> & Hm). apply randomInt_17_above, Hm.
  - apply randomInt_14_16_tight; assumption.
Qed.

Lemma X4_weight_17_exactly_witness :
  unit_interval (math_random (entropy_of (fun _ => first_17)) (random_calls start)) = true
  /\ exists w,
       randomIntFromInterval (lit 14) (lit 16) (entropy_of (fun _ => first_17)) start
       = Some (w, after_draw start)
       /\ if le first_17 (math_random (entropy_of (fun _ => first_17)) (random_calls start))
          then w = lit 17
          else int_between 14 16 w.
Proof.
  split; [reflexivity |].
  apply (X4_weight_17_exactly (entropy_of (fun _ => first_17)) start).
  reflexivity.
Defined.

(** ** Further properties of the generator *)

(** The inner loop, in closed form: it stops at the first [n] whose bound is
    not above [n], having pushed the events [0 .. n - 1] in that order. *)
Lemma events_loop_closed (E : Entropy) (n0 f0 : nat) (ts : Z)
    (word email firstName lastName : string) :
  entropy_ok E ->
  forall (fuel j : nat) (c : Cursor),
    j <= 6 -> 7 <= fuel + j ->
    random_calls c = n0 + 2 * j -> faker_calls c = f0 + j ->
    (forall i, i < j -> lt (lit (Z.of_nat i)) (bound_at E n0 i) = true) ->
    exists n,
      events_loop fuel j
        (newDay_of ts word email firstName lastName (map (event_at E n0 f0) (seq 0 j))) E c
      = Some (newDay_of ts word email firstName lastName (map (event_at E n0 f0) (seq 0 n)),
              {| random_calls := n0 + 2 * n + 1; faker_calls := f0 + n |})
      /\ j <= n <= 6 /\ first_stop E n0 n.
Proof.
  intros HE fuel. induction fuel as [| fuel IH]; intros j c Hj Hfuel Hr Hf Hbefore.
  - lia.
  - rewrite events_loop_step.
    assert (Hbound : randomInt_of (lit 1) (lit 6) (math_random E (random_calls c))
                     = bound_at E n0 j) by (unfold bound_at; rewrite Hr; reflexivity).
    rewrite Hbound.
    destruct (lt (lit (Z.of_nat j)) (bound_at E n0 j)) eqn:Hcond.
    + assert (Hj' : S j <= 6).
      { unfold bound_at in Hcond.
        destruct (randomInt_1_6 _ (HE (n0 + 2 * j))) as (k & Hk & Hlit).
        rewrite Hlit, lt_lit_small in Hcond by lia.
        apply Z.ltb_lt in Hcond. lia. }
      assert (Hpush : push_at "events"
                (VObj [("timestamp_event", VDate (faker_date E (faker_calls c)));
                       ("weight", VNum (randomInt_of (lit 14) (lit 16)
                                          (math_random E (S (random_calls c)))))])
                (newDay_of ts word email firstName lastName (map (event_at E n0 f0) (seq 0 j)))
              = newDay_of ts word email firstName lastName
                  (map (event_at E n0 f0) (seq 0 (S j)))).
      { rewrite seq_S, map_app. cbn [map Nat.add]. unfold event_at at 3.
        rewrite Hr, Hf. replace (n0 + 2 * j + 1) with (S (n0 + 2 * j)) by lia.
        reflexivity. }
      rewrite Hpush.
      destruct (IH (S j) {| random_calls := S (S (random_calls c));
                            faker_calls := S (faker_calls c) |})
        as (n & Hrun & Hn & Hstop).
      * exact Hj'.
      * lia.
      * cbn [random_calls]. lia.
      * cbn [faker_calls]. lia.
      * intros i Hi. destruct (Nat.eq_dec i j) as [-> | Hne]; [exact Hcond |].
        apply Hbefore. lia.
      * exists n. split; [exact Hrun |]. split; [lia | exact Hstop].
    + exists j. split.
      * do 2 f_equal. rewrite Hr, Hf. f_equal; lia.
      * split; [lia |]. split; assumption.
Qed.

(** One day, in closed form. *)
Lemma make_day_closed (E : Entropy) (fuel : nat) (c : Cursor) :
  entropy_ok E -> 7 <= fuel ->
  exists n,
    make_day fuel E c = Some (day_at E c n, after_day c n)
    /\ 1 <= n <= 6
    /\ first_stop E (random_calls c) n.
Proof.
  intros HE Hfuel.
  unfold make_day, gbind, faker_person_firstName, faker_person_lastName,
    faker_date_past, faker_lorem_word, faker_internet_email, faker_call.
  cbn [random_calls faker_calls].
  destruct (events_loop_closed E (random_calls c) (faker_calls c + 5)
              (faker_date E (S (S (faker_calls c))))
              (faker_string E (S (S (S (faker_calls c)))))
              (faker_email E (S (S (S (S (faker_calls c)))))
                 (faker_string E (faker_calls c)) (faker_string E (S (faker_calls c))))
              (faker_string E (faker_calls c)) (faker_string E (S (faker_calls c)))
              HE fuel 0
              {| random_calls := random_calls c;
                 faker_calls := S (S (S (S (S (faker_calls c))))) |})
    as (n & Hrun & Hn & Hstop); try (cbn [random_calls faker_calls]; lia).
  exists n. cbn [seq map] in Hrun. unfold newDay_of at 1 in Hrun.
  rewrite Hrun. unfold day_at, after_day.
  replace (faker_calls c + 1) with (S (faker_calls c)) by lia.
  replace (faker_calls c + 2) with (S (S (faker_calls c))) by lia.
  replace (faker_calls c + 3) with (S (S (S (faker_calls c)))) by lia.
  replace (faker_calls c + 4) with (S (S (S (S (faker_calls c))))) by lia.
  split; [do 3 f_equal; lia |]. split; [ | exact Hstop].
  destruct Hstop as [Hstop _]. split; [ | lia].
  destruct n as [| n]; [ | lia]. exfalso.
  unfold bound_at in Hstop.
  destruct (randomInt_1_6 _ (HE (random_calls c + 2 * 0))) as (k & Hk & Hlit).
  rewrite Hlit, lt_lit_small in Hstop by lia.
  apply Z.ltb_ge in Hstop. lia.
Qed.

Lemma events_of_day_at (E : Entropy) (c : Cursor) (n : nat) :
  events_of (day_at E c n) = map (event_at E (random_calls c) (faker_calls c + 5)) (seq 0 n).
Proof. reflexivity. Qed.

Lemma days_loop_closed (E : Entropy) (fuel : nat) :
  entropy_ok E -> 7 <= fuel ->
  forall (remaining : nat) (acc : list value) (c : Cursor),
    exists days c',
      days_loop fuel remaining acc E c = Some (acc ++ days, c')
      /\ length days = remaining
      /\ Forall (fun day => exists ci n, day = day_at E ci n /\ 1 <= n <= 6) days
      /\ random_calls c' = random_calls c + remaining + 2 * total_events days
      /\ faker_calls c' = faker_calls c + 5 * remaining + total_events days.
Proof.
  intros HE Hfuel remaining.
  induction remaining as [| remaining IH]; intros acc c.
  - exists [], c. rewrite app_nil_r. cbn [total_events length].
    split; [reflexivity |]. split; [reflexivity |]. split; [constructor | split; lia].
  - cbn [days_loop]. unfold gbind.
    destruct (make_day_closed E fuel c HE Hfuel) as (n & -> & Hn & _).
    destruct (IH (acc ++ [day_at E c n]) (after_day c n))
      as (days & c' & -> & Hlen & Hdays & Hr & Hf).
    exists (day_at E c n :: days), c'. rewrite <- app_assoc. cbn [app length].
    split; [reflexivity |]. split; [lia |].
    split; [constructor; [exists c, n; split; [reflexivity | exact Hn] | exact Hdays] |].
    cbn [total_events].
    rewrite events_of_day_at, length_map, length_seq.
    cbn [after_day random_calls faker_calls] in Hr, Hf. lia.
Qed.

Lemma total_events_bounds (E : Entropy) (days : list value) :
  Forall (fun day => exists ci n, day = day_at E ci n /\ 1 <= n <= 6) days ->
  length days <= total_events days <= 6 * length days.
Proof.
  induction 1 as [| day days (ci & n & -> & Hn) _ IH]; [cbn; lia |].
  unfold total_events in *. cbn [map list_sum fold_right length].
  rewrite events_of_day_at, length_map, length_seq. lia.
Qed.

Lemma timeSeriesData_closed (E : Entropy) (fuel : nat) :
  entropy_ok E -> 7 <= fuel ->
  exists days c,
    timeSeriesData fuel E start = Some (days, c)
    /\ Z.of_nat (length days) = 5000%Z
    /\ Forall (fun day => exists ci n, day = day_at E ci n /\ 1 <= n <= 6) days
    /\ random_calls c = length days + 2 * total_events days
    /\ faker_calls c = 5 * length days + total_events days.
Proof.
  intros HE Hfuel. unfold timeSeriesData.
  destruct (days_loop_closed E fuel HE Hfuel day_count [] start)
    as (days & c & Hrun & Hlen & Hdays & Hr & Hf).
  exists days, c. cbn [app] in Hrun. split; [exact Hrun |].
  split; [rewrite Hlen; unfold day_count; rewrite Z2Nat.id; lia |].
  split; [exact Hdays |]. rewrite Hlen. cbn [start random_calls faker_calls] in Hr, Hf.
  split; lia.
Qed.

(** X5.  A day is a function of the results that follow the cursor: the
    two names, the timestamp, the word and the address are the next five
    faker results, the events are pushed in the order they are built, event
    [i] taking the next faker date and the draw after the one of its loop
    test; the count [n] of events, from 1 to 6, is the first [j] whose loop
    test draws a bound not above [j], and the day uses [2 * n + 1] draws and
    [5 + n] faker results. *)
Theorem X5_make_day_closed_form (E : Entropy) (fuel : nat) (c : Cursor) :
  entropy_ok E -> 7 <= fuel ->
  exists n,
    make_day fuel E c = Some (day_at E c n, after_day c n)
    /\ 1 <= n <= 6
    /\ first_stop E (random_calls c) n.
Proof. intros HE Hfuel. apply make_day_closed; assumption. Qed.

Lemma X5_make_day_closed_form_witness :
  entropy_ok (entropy_of (fun _ => plus_zero)) /\ 7 <= 7
  /\ exists n,
       make_day 7 (entropy_of (fun _ => plus_zero)) start
       = Some (day_at (entropy_of (fun _ => plus_zero)) start n, after_day start n)
       /\ 1 <= n <= 6
       /\ first_stop (entropy_of (fun _ => plus_zero)) (random_calls start) n.
Proof.
  split; [intros n; reflexivity |]. split; [lia |].
  apply (X5_make_day_closed_form (entropy_of (fun _ => plus_zero)) 7 start).
  - intros n. reflexivity.
  - lia.
Defined.

(** X6.  Building the 5000 days calls [Math.random] once per day and twice
    per event, and faker five times per day and once per event; the days
    hold between one and six events each. *)
Theorem X6_draws_accounting (E : Entropy) (fuel : nat) :
  entropy_ok E -> 7 <= fuel ->
  exists days c,
    timeSeriesData fuel E start = Some (days, c)
    /\ Z.of_nat (length days) = 5000%Z
    /\ random_calls c = length days + 2 * total_events days
    /\ faker_calls c = 5 * length days + total_events days
    /\ length days <= total_events days <= 6 * length days.
Proof.
  intros HE Hfuel.
  destruct (timeSeriesData_closed E fuel HE Hfuel)
    as (days & c & Hrun & Hlen & Hdays & Hr & Hf).
  exists days, c. split; [exact Hrun |]. split; [exact Hlen |].
  split; [exact Hr |]. split; [exact Hf |].
  apply (total_events_bounds E), Hdays.
Qed.

Lemma X6_draws_accounting_witness :
  entropy_ok (entropy_of (fun _ => plus_zero)) /\ 7 <= 7
  /\ exists days c,
       timeSeriesData 7 (entropy_of (fun _ => plus_zero)) start = Some (days, c)
       /\ Z.of_nat (length days) = 5000%Z
       /\ random_calls c = length days + 2 * total_events days
       /\ faker_calls c = 5 * length days + total_events days
       /\ length days <= total_events days <= 6 * length days.
Proof.
  split; [intros n; reflexivity |]. split; [lia |].
  apply (X6_draws_accounting (entropy_of (fun _ => plus_zero)) 7).
  - intros n. reflexivity.
  - lia.
Defined.

(** X7.  In every day built, the address of the owner is the one faker made
    from the first and last name stored in the same owner object. *)
Theorem X7_owner_consistent (E : Entropy) (fuel : nat) :
  entropy_ok E -> 7 <= fuel ->
  exists days c,
    timeSeriesData fuel E start = Some (days, c)
    /\ Forall (owner_consistent E) days.
Proof.
  intros HE Hfuel.
  destruct (timeSeriesData_closed E fuel HE Hfuel) as (days & c & Hrun & _ & Hdays & _).
  exists days, c. split; [exact Hrun |].
  eapply Forall_impl; [exact Hdays |].
  intros day (ci & n & -> & _).
  eexists _, _, _. reflexivity.
Qed.

Lemma X7_owner_consistent_witness :
  entropy_ok (entropy_of (fun _ => plus_zero)) /\ 7 <= 7
  /\ exists days c,
       timeSeriesData 7 (entropy_of (fun _ => plus_zero)) start = Some (days, c)
       /\ Forall (owner_consistent (entropy_of (fun _ => plus_zero))) days.
Proof.
  split; [intros n; reflexivity |]. split; [lia |].
  apply (X7_owner_consistent (entropy_of (fun _ => plus_zero)) 7).
  - intros n. reflexivity.
  - lia.
Defined.

(** ** Further properties of [seedDB] *)

Lemma messages_app (t1 t2 : list io) : messages (t1 ++ t2) = messages t1 ++ messages t2.
Proof. unfold messages. apply flat_map_app. Qed.

Lemma messages_closing (S : Store) :
  messages (closing S)
  = match client_close S with
    | None => ["MongoDB connection closed"]
    | Some _ => []
    end.
Proof. unfold closing. destruct (client_close S); reflexivity. Qed.

(** X8.  Whatever the store does, an [insertMany] call of a run goes to
    [Synthetic_Data_DB.Synthetic_Data_COL] and carries 5000 documents, each
    a day with between 1 and 6 events whose weights are integers from 14 to
    17. *)
Theorem X8_inserted_documents (S : Store) (E : Entropy) (fuel : nat) :
  entropy_ok E -> 7 <= fuel ->
  exists t r c,
    seedDB S fuel E start = Some (t, r, c)
    /\ forall db coll docs,
         In (InsertMany db coll docs) t ->
         db = "Synthetic_Data_DB" /\ coll = "Synthetic_Data_COL"
         /\ Z.of_nat (length docs) = 5000%Z
         /\ Forall (day_ok 14 17) docs.
Proof.
  intros HE Hfuel.
  destruct (seedDB_run S E fuel HE Hfuel) as (days & c & c' & _ & Hlen & Hdays & Hrun).
  exists (seed_trace S days), (seed_completion S), c'. split; [exact Hrun |].
  intros db coll docs Hin.
  assert (Hev : InsertMany db coll docs
                = InsertMany "Synthetic_Data_DB" "Synthetic_Data_COL" days).
  { unfold seed_trace, closing in Hin.
    destruct (new_MongoClient S); [destruct Hin |].
    destruct (client_connect S); [ | destruct (collection_insertMany S days)];
      destruct (client_close S); cbn in Hin;
      repeat (destruct Hin as [Hin | Hin]; [first [exact (eq_sym Hin) | discriminate Hin] |]);
      destruct Hin. }
  injection Hev as -> -> ->. repeat split; assumption.
Qed.

Lemma X8_inserted_documents_witness :
  entropy_ok (entropy_of (fun _ => plus_zero)) /\ 7 <= 7
  /\ exists t r c,
       seedDB store_up 7 (entropy_of (fun _ => plus_zero)) start = Some (t, r, c)
       /\ forall db coll docs,
            In (InsertMany db coll docs) t ->
            db = "Synthetic_Data_DB" /\ coll = "Synthetic_Data_COL"
            /\ Z.of_nat (length docs) = 5000%Z
            /\ Forall (day_ok 14 17) docs.
Proof.
  split; [intros n; reflexivity |]. split; [lia |].
  apply (X8_inserted_documents store_up (entropy_of (fun _ => plus_zero)) 7).
  - intros n. reflexivity.
  - lia.
Defined.

(** X9.  When [new MongoClient(uri, options)] throws, [seedDB] ends with
    that error at once: nothing is logged, no call reaches the store, not
    even [close], and nothing is drawn. *)
Theorem X9_constructor_throws (S : Store) (E : Entropy) (fuel : nat) (c : Cursor)
    (e : error) :
  new_MongoClient S = Some e ->
  seedDB S fuel E c = Some ([], Throw e, c).
Proof.
  intros Hnew. unfold seedDB, rbind, construct_client. rewrite Hnew. reflexivity.
Qed.

Lemma X9_constructor_throws_witness :
  new_MongoClient store_unbuilt = Some (Error "Invalid scheme")
  /\ seedDB store_unbuilt 0 (entropy_of (fun _ => plus_zero)) start
     = Some ([], Throw (Error "Invalid scheme"), start).
Proof.
  split; [reflexivity |].
  apply (X9_constructor_throws store_unbuilt (entropy_of (fun _ => plus_zero)) 0 start).
  reflexivity.
Defined.

(** X10.  When [connect] throws, no document is built: the run logs the
    stack of the error, attempts [close] and ends, without a call to
    [Math.random] or to faker, whatever they would have returned. *)
Theorem X10_connect_throws (S : Store) (E : Entropy) (fuel : nat) (c : Cursor)
    (e : error) :
  new_MongoClient S = None -> client_connect S = Some e ->
  seedDB S fuel E c
  = Some ([Connect; ConsoleLog (stack e); Close]
            ++ match client_close S with
               | None => [ConsoleLog "MongoDB connection closed"]
               | Some _ => []
               end,
          match client_close S with
          | None => Normal tt
          | Some e' => Throw e'
          end,
          c).
Proof.
  intros Hnew Hconn.
  unfold seedDB, try_catch_finally, rbind, call, console_log, construct_client.
  rewrite Hnew, Hconn. destruct (client_close S); reflexivity.
Qed.

Lemma X10_connect_throws_witness :
  new_MongoClient store_down = None
  /\ client_connect store_down = Some (Error "connect ECONNREFUSED")
  /\ seedDB store_down 0 (entropy_of (fun _ => almost_one)) start
     = Some ([Connect; ConsoleLog (stack (Error "connect ECONNREFUSED")); Close]
               ++ match client_close store_down with
                  | None => [ConsoleLog "MongoDB connection closed"]
                  | Some _ => []
                  end,
             match client_close store_down with
             | None => Normal tt
             | Some e' => Throw e'
             end,
             start).
Proof.
  split; [reflexivity |]. split; [reflexivity |].
  apply (X10_connect_throws store_down (entropy_of (fun _ => almost_one)) 0 start).
  - reflexivity.
  - reflexivity.
Defined.

(** X11.  The console output of a run whose client is built: the stack of
    the error when [connect] throws; otherwise the connection message, then
    the success message when [insertMany] completes and the stack of its
    error when it throws; last, the closing message when [close] completes
    and nothing when it throws. *)
Theorem X11_console_output (S : Store) (E : Entropy) (fuel : nat) :
  entropy_ok E -> 7 <= fuel -> new_MongoClient S = None ->
  exists days c0 t r c,
    timeSeriesData fuel E start = Some (days, c0)
    /\ seedDB S fuel E start = Some (t, r, c)
    /\ messages t
       = match client_connect S with
         | Some e => [stack e]
         | None =>
             "Connected correctly to server"
             :: match collection_insertMany S days with
                | None => ["Database seeded with synthetic data! :)"]
                | Some e => [stack e]
                end
         end
         ++ match client_close S with
            | None => ["MongoDB connection closed"]
            | Some _ => []
            end.
Proof.
  intros HE Hfuel Hnew.
  destruct (seedDB_run S E fuel HE Hfuel) as (days & c & c' & Hgen & _ & _ & Hrun).
  exists days, c, (seed_trace S days), (seed_completion S), c'.
  split; [exact Hgen |]. split; [exact Hrun |].
  unfold seed_trace. rewrite Hnew.
  destruct (client_connect S) as [e |].
  - rewrite messages_app, messages_closing. reflexivity.
  - rewrite !messages_app, messages_closing.
    destruct (collection_insertMany S days); reflexivity.
Qed.

Lemma X11_console_output_witness :
  entropy_ok (entropy_of (fun _ => plus_zero)) /\ 7 <= 7
  /\ new_MongoClient store_up = None
  /\ exists days c0 t r c,
       timeSeriesData 7 (entropy_of (fun _ => plus_zero)) start = Some (days, c0)
       /\ seedDB store_up 7 (entropy_of (fun _ => plus_zero)) start = Some (t, r, c)
       /\ messages t
          = match client_connect store_up with
            | Some e => [stack e]
            | None =>
                "Connected correctly to server"
                :: match collection_insertMany store_up days with
                   | None => ["Database seeded with synthetic data! :)"]
                   | Some e => [stack e]
                   end
            end
            ++ match client_close store_up with
               | None => ["MongoDB connection closed"]
               | Some _ => []
               end.
Proof.
  split; [intros n; reflexivity |]. split; [lia |]. split; [reflexivity |].
  apply (X11_console_output store_up (entropy_of (fun _ => plus_zero)) 7).
  - intros n. reflexivity.
  - lia.
  - reflexivity.
Defined.

(** ** The batch loader *)

Section PipelineFacts.
Import Pipeline.

Lemma ceil_div_zero (B : nat) : 0 < B -> ceil_div 0 B = 0.
Proof. intros HB. unfold ceil_div. apply Nat.div_small. lia. Qed.

Lemma ceil_div_small (N B : nat) : 0 < N <= B -> ceil_div N B = 1.
Proof.
  intros HN. unfold ceil_div. symmetry.
  apply (Nat.div_unique _ _ 1 (N - 1)); lia.
Qed.

Lemma ceil_div_add (N B : nat) : 0 < B -> ceil_div (B + N) B = S (ceil_div N B).
Proof.
  intros HB. unfold ceil_div.
  replace (B + N + B - 1) with ((N + B - 1) + 1 * B) by lia.
  rewrite Nat.div_add by lia. lia.
Qed.

(** The loop of the loader, started with a buffer that is not full. *)
Lemma load_loop_batched {A} (B : nat) (documents buffer : list A) :
  0 < B -> length buffer < B ->
  batched B (length buffer + length documents) (load_loop B documents buffer)
  /\ concat (load_loop B documents buffer) = buffer ++ documents.
Proof.
  intros HB. revert buffer.
  induction documents as [| d rest IH]; intros buffer Hbuf.
  - cbn [load_loop length]. rewrite Nat.add_0_r, app_nil_r.
    destruct buffer as [| x buffer'].
    + split; [ | reflexivity]. split; [cbn; rewrite ceil_div_zero by lia; reflexivity |].
      split; [intros i b Hi; rewrite lookup_nil in Hi; discriminate | cbn; lia].
    + split; [ | cbn; rewrite app_nil_r; reflexivity].
      set (buffer := x :: buffer') in *.
      assert (0 < length buffer) by (cbn; lia).
      split; [cbn [length]; rewrite ceil_div_small by lia; reflexivity |].
      split; [intros i b _ Hi; cbn in Hi; lia |].
      intros _. exists buffer. split; [reflexivity |].
      rewrite Nat.mod_small by lia.
      destruct (Nat.eqb_spec (length buffer) 0); [lia | reflexivity].
  - cbn [load_loop]. cbn zeta.
    assert (Hlen : length (buffer ++ [d]) = S (length buffer))
      by (rewrite length_app; cbn; lia).
    destruct (Nat.leb_spec B (length (buffer ++ [d]))) as [Hfull | Hroom].
    + (* the buffer is full: push it, go on with an empty buffer *)
      destruct (IH [] ltac:(cbn; lia)) as [(Hcount & Hfulls & Hlast) Hconcat].
      cbn [length Nat.add app] in Hcount, Hlast, Hconcat.
      assert (HB' : length (buffer ++ [d]) = B) by lia.
      replace (length buffer + length (d :: rest)) with (B + length rest)
        by (cbn [length]; lia).
      split; [ | cbn [concat]; rewrite Hconcat, <- app_assoc; reflexivity].
      split; [cbn [length]; rewrite ceil_div_add, Hcount by lia; reflexivity |].
      split.
      * intros [| i] b Hi Hlt; cbn in Hi.
        -- injection Hi as <-. exact HB'.
        -- apply (Hfulls i b Hi). cbn [length] in Hlt. lia.
      * intros _.
        replace ((B + length rest) mod B) with (length rest mod B)
          by (rewrite Nat.add_comm; replace B with (1 * B) at 2 by lia;
              rewrite Nat.Div0.mod_add; reflexivity).
        destruct (length rest) as [| n] eqn:Hrest.
        -- rewrite ceil_div_zero in Hcount by lia.
           apply nil_length_inv in Hcount. rewrite Hcount.
           exists (buffer ++ [d]). split; [reflexivity |].
           rewrite Nat.Div0.mod_0_l. exact HB'.
        -- destruct (Hlast ltac:(lia)) as (b & Hb & Hbl).
           exists b. split; [ | exact Hbl].
           destruct (load_loop B rest []) as [| b0 l0]; [discriminate Hb |].
           exact Hb.
    + (* there is room: keep filling *)
      destruct (IH (buffer ++ [d]) ltac:(lia)) as [Hshape Hconcat].
      rewrite Hlen in Hshape.
      replace (length buffer + length (d :: rest)) with (S (length buffer) + length rest)
        by (cbn [length]; lia).
      split; [exact Hshape |].
      rewrite Hconcat, <- app_assoc. reflexivity.
Qed.

(** ** The claims on the pipeline *)

(** C7.  A load of [N] documents at [B] per batch issues [ceil (N / B)] push
    calls; every call but the last carries [B] documents and the last
    carries [N mod B], or [B] when [B] divides [N]; the calls carry the
    documents in order. *)
Theorem C7_load_batches {A} (documents : list A) (batchSize : nat) :
  0 < batchSize ->
  length (load documents batchSize) = ceil_div (length documents) batchSize
  /\ (forall i b, load documents batchSize !! i = Some b ->
                  S i < length (load documents batchSize) -> length b = batchSize)
  /\ (0 < length documents ->
      exists b, last (load documents batchSize) = Some b
                /\ length b = if length documents mod batchSize =? 0 then batchSize
                              else length documents mod batchSize)
  /\ concat (load documents batchSize) = documents.
Proof.
  intros HB. unfold load.
  destruct (load_loop_batched batchSize documents [] HB ltac:(cbn; lia))
    as [(Hcount & Hfull & Hlast) Hconcat].
  cbn [length Nat.add app] in *. repeat split; assumption.
Qed.

Lemma C7_load_batches_witness :
  0 < 2
  /\ length (load ["a"; "b"; "c"; "d"; "e"] 2) = ceil_div (length ["a"; "b"; "c"; "d"; "e"]) 2
  /\ (forall i b, load ["a"; "b"; "c"; "d"; "e"] 2 !! i = Some b ->
                  S i < length (load ["a"; "b"; "c"; "d"; "e"] 2) -> length b = 2)
  /\ (0 < length ["a"; "b"; "c"; "d"; "e"] ->
      exists b, last (load ["a"; "b"; "c"; "d"; "e"] 2) = Some b
                /\ length b = if length ["a"; "b"; "c"; "d"; "e"] mod 2 =? 0 then 2
                              else length ["a"; "b"; "c"; "d"; "e"] mod 2)
  /\ concat (load ["a"; "b"; "c"; "d"; "e"] 2) = ["a"; "b"; "c"; "d"; "e"].
Proof.
  split; [lia |].
  apply (C7_load_batches ["a"; "b"; "c"; "d"; "e"] 2). lia.
Defined.

Example load_five_by_two :
  load ["a"; "b"; "c"; "d"; "e"] 2 = [["a"; "b"]; ["c"; "d"]; ["e"]].
Proof. reflexivity. Qed.

Lemma ensureIndex_result (schema : IndexSchema) (svc : Service) :
  ensureIndex schema svc = inr (<[ name schema := fresh_index schema ]> svc).
Proof.
  unfold ensureIndex, create_index, delete_index. fold (fresh_index schema).
  assert (Hsame : <[ name schema := fresh_index schema ]>
                    (match svc !! name schema with
                     | Some _ => delete (name schema) svc
                     | None => svc
                     end)
                  = <[ name schema := fresh_index schema ]> svc).
  { destruct (svc !! name schema); [apply insert_delete_eq | reflexivity]. }
  rewrite Hsame, lookup_insert_eq. cbn [index_fields fresh_index].
  rewrite decide_True by reflexivity. reflexivity.
Qed.

(** C8.  [ensureIndex] leaves an index with the fields of the schema and no
    document; called again, at once or after documents were pushed, it
    leaves the same service state. *)
Theorem C8_ensureIndex_idempotent (schema : IndexSchema) (svc : Service) :
  exists svc1,
    ensureIndex schema svc = inr svc1
    /\ svc1 !! name schema
       = Some {| index_fields := fields schema; index_docs := ∅ |}
    /\ ensureIndex schema svc1 = inr svc1
    /\ forall docs, ensureIndex schema (upsert (name schema) docs svc1) = inr svc1.
Proof.
  exists (<[ name schema := fresh_index schema ]> svc).
  split; [apply ensureIndex_result |].
  split; [apply lookup_insert_eq |].
  split.
  - rewrite ensureIndex_result, insert_insert_eq. reflexivity.
  - intros docs. rewrite ensureIndex_result. unfold upsert.
    rewrite lookup_insert_eq, !insert_insert_eq. reflexivity.
Qed.

(** The computation and the function agree: [transform_document] returns
    what [transform] gives. *)
Lemma transform_document_run (doc : SourceDocument) (w : World) :
  transform_document doc w = (transform doc, [], w).
Proof.
  unfold transform_document, py_bind, getitem, transform.
  destruct (doc !! "_id"); reflexivity.
Qed.

(** C9.  [transform_document] is deterministic and performs no I/O: in
    whatever worlds two calls on the same document run, they return the same
    document, or raise the same error; neither makes a call to the outside,
    and each leaves its world as it found it. *)
Theorem C9_transform_deterministic (doc : SourceDocument) (w1 w2 : World) :
  exists r,
    transform_document doc w1 = (r, [], w1)
    /\ transform_document doc w2 = (r, [], w2).
Proof.
  exists (transform doc). split; apply transform_document_run.
Qed.

(** The statement of C9 is one about the code of [transform_document]:
    computations of the same type that read the settings, read the clock or
    log do not have it. *)
Example getenv_depends_on_the_world :
  exists w1 w2,
    (os_getenv "SEARCH_INDEX_NAME" w1).1.1 <> (os_getenv "SEARCH_INDEX_NAME" w2).1.1.
Proof.
  exists {| environ := {[ "SEARCH_INDEX_NAME" := "days" ]}; clock := 0 |},
         {| environ := ∅; clock := 0 |}.
  cbn. discriminate.
Qed.

Example time_changes_the_world (w : World) : (time_time w).2 <> w.
Proof. destruct w as [env t]. cbn. intros H. injection H as H. lia. Qed.

Example logging_is_io (msg : string) (w : World) : (logging_info msg w).1.2 <> [].
Proof. cbn. discriminate. Qed.

Example transform_example :
  transform {[ "_id" := FStr "42"; "cat" := FStr "amet" ]} = inr {[ "id" := FStr "42" ]}.
Proof. reflexivity. Qed.

Example transform_missing_key :
  transform {[ "cat" := FStr "amet" ]} = inl MissingKeyError.
Proof. reflexivity. Qed.

(** X12.  A document with an [_id] is transformed into a document that has
    exactly the fields the schema of [get_search_index_schema] declares, and
    whose key field holds the source identifier, unchanged. *)
Theorem X12_transform_fits_schema (SEARCH_INDEX_NAME : string) (doc : SourceDocument)
    (v : field) :
  doc !! "_id" = Some v ->
  exists search_doc,
    transform doc = inr search_doc
    /\ (forall k, is_Some (search_doc !! k)
                  <-> In k (map fname (fields (get_search_index_schema SEARCH_INDEX_NAME))))
    /\ (forall f, In f (fields (get_search_index_schema SEARCH_INDEX_NAME)) ->
                  key f = true -> search_doc !! fname f = Some v).
Proof.
  intros Hid. exists {[ "id" := v ]}. unfold transform. rewrite Hid.
  split; [reflexivity |]. split.
  - intros k. cbn [get_search_index_schema fields map fname In]. split.
    + intros [x Hx]. apply lookup_singleton_Some in Hx as [<- _]. left. reflexivity.
    + intros [<- | []]. exists v. apply lookup_singleton_eq.
  - intros f [<- | []] _. cbn [fname]. apply lookup_singleton_eq.
Qed.

Lemma X12_transform_fits_schema_witness :
  ({[ "_id" := FInt 42; "cat" := FStr "amet" ]} : SourceDocument) !! "_id" = Some (FInt 42)
  /\ exists search_doc,
       transform {[ "_id" := FInt 42; "cat" := FStr "amet" ]} = inr search_doc
       /\ (forall k, is_Some (search_doc !! k)
                     <-> In k (map fname (fields (get_search_index_schema "days"))))
       /\ (forall f, In f (fields (get_search_index_schema "days")) ->
                     key f = true -> search_doc !! fname f = Some (FInt 42)).
Proof.
  split; [reflexivity |].
  apply (X12_transform_fits_schema "days" {[ "_id" := FInt 42; "cat" := FStr "amet" ]} (FInt 42)).
  reflexivity.
Defined.

End PipelineFacts.
